(** * Credential and token lifecycle of login.webmaker.org

    A shallow embedding of [app/db/models/index.js]: the login-token,
    reset-code and password operations exported by the model layer, over
    an explicit model of the tables they query, the notification queue
    they write to and the libraries they call. *)

From Stdlib Require Import ZArith String Ascii Lia Bool.
From stdpp Require Import base decidable option numbers strings list.

Local Open Scope Z_scope.
Local Open Scope string_scope.

(** ** Constants of the module (index.js, lines 12-17) *)

Definition TOKEN_EXPIRY_TIME : Z := 1000 * 60 * 30.
Definition RESET_CODE_BIT_LENGTH : Z := 256.
Definition RESET_CODE_BASE : Z := 16.
Definition RESET_EXPIRY_TIME : Z := 1000 * 60 * 60 * 24.
Definition BCRYPT_ROUNDS : nat := 12.

(** ** Time

    [Date.now()] is a number of milliseconds.  The lower bound of every
    range query is written
    [moment(ms).utc().format("YYYY-MM-DD HH:mm:ss Z")]: the pattern has no
    field below the second, so the text names the first millisecond of
    the second that contains [ms].  [utc_format] is the instant (in
    milliseconds) that the formatted text denotes. *)

Definition utc_format (ms : Z) : Z := 1000 * (ms / 1000).

(** ** Values handed to callbacks and to the notifier *)

Inductive JsValue :=
| JsNumber (n : Z)
| JsString (s : string)
| JsBoolean (b : bool).

Inductive JsError :=
| ErrObject (error : string)    (* the literal [{ error: "..." }] *)
| ErrString (message : string)  (* a bare string passed as the error *)
| ErrStore                      (* an error reported by the database *)
| ErrBcrypt.                    (* an error reported by bcrypt *)

(** What the caller of an exported function observes: its callback
    invoked as [callback(err)] or [callback(null, value)], an exception
    raised before any callback was registered, or nothing at all: the
    call returns and the callback is never invoked. *)
Inductive JsException := TypeError | RangeError.

Inductive Outcome (A : Type) :=
| Callback (r : JsError + A)
| Throws (e : JsException)
| NoCallback.
Arguments Callback {A} r.
Arguments Throws {A} e.
Arguments NoCallback {A}.

(** ** Rows and instances *)

Record LoginToken := {
  lt_UserId : nat;
  lt_token : string;
  lt_used : bool;
  lt_createdAt : Z
}.

Record ResetCode := {
  rc_UserId : nat;
  rc_code : string;
  rc_used : bool;
  rc_invalid : bool;
  rc_createdAt : Z
}.

(** A row of the password table.  [setPassword] of a [hasOne] relation
    unlinks the previous row by clearing its foreign key, hence the
    optional [pw_UserId]. *)
Record Password := {
  pw_UserId : option nat;
  pw_saltedHash : option string   (* [None]: the column was written with [undefined] *)
}.

Record UserRow := {
  u_username : string;
  u_email : string;
  u_verified : bool;
  u_usePasswordLogin : bool
}.

(** A password instance held in JavaScript: [pi_id] is the primary key of
    the row it was loaded from, [None] for an instance that was built and
    never saved. *)
Record PasswordInstance := {
  pi_id : option nat;
  pi_saltedHash : option string
}.

(** The user instance passed to the exported functions.  [password] is
    the eagerly loaded association, [None] when the property is absent. *)
Record User := {
  id : nat;
  username : string;
  email : string;
  verified : bool;
  password : option PasswordInstance
}.

Definition Event : Type := string * list (string * JsValue).

(** ** The world the module acts on

    Tables are lists indexed by primary key (auto-increment keys are
    never reused; a destroyed password row leaves a hole).  [hatchet] is
    the queue of notifications sent so far, oldest first.  [failing]
    scripts the database: the n-th entry tells whether the n-th request
    from now on is answered with an error; an exhausted script means a
    healthy database. *)
Record World := {
  loginTokens : list LoginToken;
  resetCodes : list ResetCode;
  passwords : list (option Password);
  users : list UserRow;
  hatchet : list Event;
  failing : list bool
}.

Definition set_loginTokens (f : list LoginToken -> list LoginToken) (w : World) : World :=
  {| loginTokens := f (loginTokens w); resetCodes := resetCodes w;
     passwords := passwords w; users := users w; hatchet := hatchet w;
     failing := failing w |}.

Definition set_resetCodes (f : list ResetCode -> list ResetCode) (w : World) : World :=
  {| loginTokens := loginTokens w; resetCodes := f (resetCodes w);
     passwords := passwords w; users := users w; hatchet := hatchet w;
     failing := failing w |}.

Definition set_passwords (f : list (option Password) -> list (option Password)) (w : World) : World :=
  {| loginTokens := loginTokens w; resetCodes := resetCodes w;
     passwords := f (passwords w); users := users w; hatchet := hatchet w;
     failing := failing w |}.

Definition set_users (f : list UserRow -> list UserRow) (w : World) : World :=
  {| loginTokens := loginTokens w; resetCodes := resetCodes w;
     passwords := passwords w; users := f (users w); hatchet := hatchet w;
     failing := failing w |}.

Definition set_hatchet (f : list Event -> list Event) (w : World) : World :=
  {| loginTokens := loginTokens w; resetCodes := resetCodes w;
     passwords := passwords w; users := users w; hatchet := f (hatchet w);
     failing := failing w |}.

Definition set_failing (f : list bool -> list bool) (w : World) : World :=
  {| loginTokens := loginTokens w; resetCodes := resetCodes w;
     passwords := passwords w; users := users w; hatchet := hatchet w;
     failing := f (failing w) |}.

(** ** Promises

    A chain [p.then(f).then(g).error(h)] runs [f] and [g] on fulfilment
    and skips to [h] on the first rejection: an error monad over the
    world. *)

Definition Promise (A : Type) : Type := World -> (JsError + A) * World.

Definition resolve {A} (a : A) : Promise A := fun w => (inr a, w).
Definition reject {A} (e : JsError) : Promise A := fun w => (inl e, w).

Definition then_ {A B} (p : Promise A) (f : A -> Promise B) : Promise B :=
  fun w =>
    match p w with
    | (inl e, w') => (inl e, w')
    | (inr a, w') => f a w'
    end.

Definition error_ {A} (p : Promise A) (h : JsError -> Promise A) : Promise A :=
  fun w =>
    match p w with
    | (inl e, w') => h e w'
    | (inr a, w') => (inr a, w')
    end.

Notation "'await' x <- p ; k" := (then_ p (fun x => k))
  (at level 10, x name, p at level 100, k at level 200).
Notation "'perform' p ; k" := (then_ p (fun _ => k))
  (at level 10, p at level 100, k at level 200).

(** Running a chain whose two ends both call [callback]. *)
Definition complete {A} (p : Promise A) (w : World) : Outcome A * World :=
  let (r, w') := p w in (Callback r, w').

(** One request to the database: it consumes the head of the script and
    is rejected when the script says so. *)
Definition request : Promise unit :=
  fun w =>
    match failing w with
    | true :: rest => (inl ErrStore, set_failing (fun _ => rest) w)
    | false :: rest => (inr tt, set_failing (fun _ => rest) w)
    | [] => (inr tt, w)
    end.

Definition hatchet_send (name : string) (payload : list (string * JsValue)) : Promise unit :=
  fun w => (inr tt, set_hatchet (fun q => (q ++ [(name, payload)])%list) w).

(** ** Emitters nobody listens to

    A chain is settled once one of its two ends was reached.  When a
    request fails whose emitter has no listener for the failure, neither
    end is ever reached: the chain that waits for it stays unsettled for
    good, written [None]. *)
Definition Chain (A : Type) : Type := World -> option (JsError + A) * World.

Definition settled {A} (p : Promise A) : Chain A :=
  fun w => let (r, w') := p w in (Some r, w').

(** [p] with a listener for its success only. *)
Definition unheard {A} (p : Promise A) : Chain A :=
  fun w =>
    match p w with
    | (inl _, w') => (None, w')
    | (inr a, w') => (Some (inr a), w')
    end.

Definition chain_then {A B} (c : Chain A) (f : A -> Chain B) : Chain B :=
  fun w =>
    match c w with
    | (Some (inr a), w') => f a w'
    | (Some (inl e), w') => (Some (inl e), w')
    | (None, w') => (None, w')
    end.

Definition chain_error {A} (c : Chain A) (h : JsError -> Chain A) : Chain A :=
  fun w =>
    match c w with
    | (Some (inl e), w') => h e w'
    | (Some (inr a), w') => (Some (inr a), w')
    | (None, w') => (None, w')
    end.

(** Running a chain whose two ends both call [callback]: a chain that
    never settles never calls it. *)
Definition chain_complete {A} (c : Chain A) (w : World) : Outcome A * World :=
  match c w with
  | (Some r, w') => (Callback r, w')
  | (None, w') => (NoCallback, w')
  end.

(** ** proquint

    The [proquint] package: every 16-bit big-endian word of the buffer
    becomes five letters, consonant-vowel-consonant-vowel-consonant, and
    the words are joined with a dash.  The package writes the letters
    from the least significant bits up: the first consonant holds bits
    0-3 of the word, the first vowel bits 4-5, the second consonant bits
    6-9, the second vowel bits 10-11 and the last consonant bits 12-15.
    The octets 127, 0, 0, 1 become [basul-dabab]. *)
Module proquint.

Definition consonants : string := "bdfghjklmnprstvz".
Definition vowels : string := "aiou".

Definition charAt (s : string) (n : Z) : ascii :=
  match String.get (Z.to_nat n) s with
  | Some c => c
  | None => " "%char
  end.

Definition encode16 (n : Z) : string :=
  String (charAt consonants (Z.land n 15))
 (String (charAt vowels (Z.land (Z.shiftr n 4) 3))
 (String (charAt consonants (Z.land (Z.shiftr n 6) 15))
 (String (charAt vowels (Z.land (Z.shiftr n 10) 3))
 (String (charAt consonants (Z.land (Z.shiftr n 12) 15)) EmptyString)))).

(** [buf.readUInt16BE(i)] for i = 0, 2, 4, ... *)
Fixpoint words (buf : list Z) : list Z :=
  match buf with
  | hi :: lo :: rest => (hi * 256 + lo) :: words rest
  | _ => []
  end.

Definition encode (buf : list Z) : string :=
  String.concat "-" (map encode16 (words buf)).

End proquint.

(** [crypto.randomBytes(n)]: [n] octets read from the operating system's
    generator, here the first [n] values of the entropy stream of the
    call. *)
Definition crypto_randomBytes (entropy : nat -> Z) (n : nat) : list Z :=
  map (fun i => entropy i mod 256) (seq 0 n).

(** ** hat

    The [hat] package, [hat(bits, base)].  For a base that is a power of
    two whose exponent divides [bits], as in the one call made here,
    [Math.log(Math.pow(2, bits)) / Math.log(base)] is the whole number
    [bits / log2 base] and no fractional digit is added.  Each digit is
    [Math.floor(Math.random() * base).toString(base)], prepended to the
    text so far.  The text is then read back with [parseInt], a double:
    when that double reaches [Math.pow(2, bits)] the function calls
    itself again.  [random] is the stream of values
    [Math.floor(Math.random() * base)]; [stack] bounds the depth of the
    self-calls, and exhausting it is a [RangeError]. *)
Module Hat.

Definition toString (d : Z) : ascii := proquint.charAt "0123456789abcdef" d.

Fixpoint digits_loop (n : nat) (base : Z) (random : nat -> Z) (res : string) : string :=
  match n with
  | O => res
  | S n' => digits_loop n' base (fun i => random (S i))
              (String (toString (random O mod base)) res)
  end.

Definition digit_value (c : ascii) : Z :=
  let n := Z.of_N (N_of_ascii c) in
  if ((48 <=? n) && (n <=? 57))%Z then n - 48
  else if ((97 <=? n) && (n <=? 122))%Z then n - 87
  else 0.

(** The mathematical value of a text of digits in [base]. *)
Fixpoint value_from (base : Z) (acc : Z) (s : string) : Z :=
  match s with
  | EmptyString => acc
  | String c s' => value_from base (acc * base + digit_value c) s'
  end.

(** Conversion of a non-negative integer to the nearest double, ties to
    even (53 significant bits); the result is again an integer. *)
Definition to_double (v : Z) : Z :=
  let e := Z.log2 v - 52 in
  if (e <=? 0)%Z then v
  else
    let q := v / 2 ^ e in
    let r := v mod 2 ^ e in
    let half := 2 ^ (e - 1) in
    if (r <? half)%Z then q * 2 ^ e
    else if (half <? r)%Z then (q + 1) * 2 ^ e
    else (if Z.even q then q else q + 1) * 2 ^ e.

Definition parseInt (res : string) (base : Z) : Z := to_double (value_from base 0 res).

Fixpoint hat (stack : nat) (bits base : Z) (random : nat -> Z) : option string :=
  match stack with
  | O => None
  | S stack' =>
      let digits := Z.to_nat (bits / Z.log2 base) in
      let res := digits_loop digits base random "" in
      if (2 ^ bits <=? parseInt res base)%Z
      then hat stack' bits base (fun i => random (digits + i)%nat)
      else Some res
  end.

End Hat.

(** ** bcrypt

    The three entry points used by the module.  [None] stands for the
    callback being invoked with an error and no value. *)
Record Bcrypt := {
  bcrypt_genSalt : nat -> option string;
  bcrypt_hash : string -> string -> option string;
  bcrypt_compare : string -> string -> option bool
}.

(** ** The model layer (Sequelize)

    Every finder, save, update and destroy is one request. *)

(** Modelled from the spec: the column defaults of [loginToken.js], which
    is not part of the sources at hand; a login token starts with
    [used = false].  [createdAt] is the time of the save. *)
Definition loginToken_build (token : string) (UserId : nat) (createdAt : Z) : LoginToken :=
  {| lt_UserId := UserId; lt_token := token; lt_used := false; lt_createdAt := createdAt |}.

(** Modelled from the spec: the column defaults of [resetCode.js], which
    is not part of the sources at hand; a reset code starts with
    [used = false] and [invalid = false]. *)
Definition resetCode_build (code : string) (UserId : nat) (createdAt : Z) : ResetCode :=
  {| rc_UserId := UserId; rc_code := code; rc_used := false; rc_invalid := false;
     rc_createdAt := createdAt |}.

(** [password.build()]: an unsaved instance with no hash yet. *)
Definition password_build : PasswordInstance :=
  {| pi_id := None; pi_saltedHash := None |}.

Definition loginToken_save (r : LoginToken) : Promise LoginToken :=
  perform request;
  fun w => (inr r, set_loginTokens (fun t => (t ++ [r])%list) w).

Definition resetCode_save (r : ResetCode) : Promise ResetCode :=
  perform request;
  fun w => (inr r, set_resetCodes (fun t => (t ++ [r])%list) w).

(** The [where] clause of [lookupToken]. *)
Definition loginToken_where (UserId : nat) (token : string) (gte : Z) (r : LoginToken) : Prop :=
  lt_UserId r = UserId /\ lt_token r = token /\ lt_used r = false /\ gte <= lt_createdAt r.

#[global] Instance loginToken_where_dec UserId token gte r :
  Decision (loginToken_where UserId token gte r).
Proof. unfold loginToken_where. apply _. Defined.

(** The [where] clause of [validateReset]. *)
Definition resetCode_where (code : string) (UserId : nat) (gte : Z) (r : ResetCode) : Prop :=
  rc_code r = code /\ rc_UserId r = UserId /\ rc_used r = false /\ rc_invalid r = false /\
  gte <= rc_createdAt r.

#[global] Instance resetCode_where_dec code UserId gte r :
  Decision (resetCode_where code UserId gte r).
Proof. unfold resetCode_where. apply _. Defined.

(** The [where] clause of [invalidateActiveResets]. *)
Definition resetCode_active (UserId : nat) (gte : Z) (r : ResetCode) : Prop :=
  rc_UserId r = UserId /\ rc_used r = false /\ rc_invalid r = false /\ gte <= rc_createdAt r.

#[global] Instance resetCode_active_dec UserId gte r :
  Decision (resetCode_active UserId gte r).
Proof. unfold resetCode_active. apply _. Defined.

(** [Model.find({ where })]: the first matching row with its primary
    key, [None] for JavaScript's [null]. *)
Definition loginToken_find (P : LoginToken -> Prop) `{!forall r, Decision (P r)} :
  Promise (option (nat * LoginToken)) :=
  perform request;
  fun w => (inr (list_find P (loginTokens w)), w).

Definition resetCode_find (P : ResetCode -> Prop) `{!forall r, Decision (P r)} :
  Promise (option (nat * ResetCode)) :=
  perform request;
  fun w => (inr (list_find P (resetCodes w)), w).

Definition lt_set_used (b : bool) (r : LoginToken) : LoginToken :=
  {| lt_UserId := lt_UserId r; lt_token := lt_token r; lt_used := b;
     lt_createdAt := lt_createdAt r |}.

Definition rc_set_used (b : bool) (r : ResetCode) : ResetCode :=
  {| rc_UserId := rc_UserId r; rc_code := rc_code r; rc_used := b;
     rc_invalid := rc_invalid r; rc_createdAt := rc_createdAt r |}.

Definition rc_set_invalid (b : bool) (r : ResetCode) : ResetCode :=
  {| rc_UserId := rc_UserId r; rc_code := rc_code r; rc_used := rc_used r;
     rc_invalid := b; rc_createdAt := rc_createdAt r |}.

(** [instance.updateAttributes({ used: true }, ["used"])]: an update of
    the one row that has the primary key of the instance. *)
Definition loginToken_updateAttributes (i : nat) (used : bool) : Promise unit :=
  perform request;
  fun w => (inr tt, set_loginTokens (alter (lt_set_used used) i) w).

Definition resetCode_updateAttributes (i : nat) (used : bool) : Promise unit :=
  perform request;
  fun w => (inr tt, set_resetCodes (alter (rc_set_used used) i) w).

(** [Model.update({ invalid: true }, where)]: one conditional update of
    every matching row, answered with the number of rows it changed. *)
Definition resetCode_update (invalid : bool) (P : ResetCode -> Prop)
  `{!forall r, Decision (P r)} : Promise nat :=
  perform request;
  fun w => (inr (length (filter P (resetCodes w))),
            set_resetCodes (map (fun r => if decide (P r) then rc_set_invalid invalid r else r)) w).

Definition u_set_usePasswordLogin (b : bool) (r : UserRow) : UserRow :=
  {| u_username := u_username r; u_email := u_email r; u_verified := u_verified r;
     u_usePasswordLogin := b |}.

(** [user.updateAttributes({ usePasswordLogin: b }, ["usePasswordLogin"])]. *)
Definition user_updateAttributes (user : User) (usePasswordLogin : bool) : Promise unit :=
  perform request;
  fun w => (inr tt, set_users (alter (u_set_usePasswordLogin usePasswordLogin) (id user)) w).

Definition password_of (UserId : nat) (o : option Password) : Prop :=
  exists r, o = Some r /\ pw_UserId r = Some UserId.

#[global] Instance password_of_dec UserId o : Decision (password_of UserId o).
Proof.
  destruct o as [r|].
  - destruct (decide (pw_UserId r = Some UserId)) as [e|n].
    + left. exists r. split; [reflexivity | exact e].
    + right. intros [r' [E H]]. inversion E. subst. contradiction.
  - right. intros [r' [E _]]. discriminate.
Defined.

Definition pw_unlink (o : option Password) : option Password :=
  match o with
  | Some r => Some {| pw_UserId := None; pw_saltedHash := pw_saltedHash r |}
  | None => None
  end.

(** [instance.save()] of a password instance whose foreign key was set
    to [UserId]: an insert for an instance never saved, otherwise an
    update of the row with its primary key (a row destroyed in the
    meantime is not brought back). *)
Definition password_save (UserId : nat) (pass : PasswordInstance) : Promise unit :=
  perform request;
  fun w =>
    let row := {| pw_UserId := Some UserId; pw_saltedHash := pi_saltedHash pass |} in
    match pi_id pass with
    | None => (inr tt, set_passwords (fun t => (t ++ [Some row])%list) w)
    | Some k => (inr tt, set_passwords (alter (fun o => match o with
                                                       | Some _ => Some row
                                                       | None => None
                                                       end) k) w)
    end.

(** [user.setPassword(pass)], the setter of [user.hasOne(password)]: it
    fetches the row currently linked to the user, clears the foreign key
    of that row, then points [pass] at the user and saves it.  The setter
    listens for the success of its fetch and of the save that unlinks the
    old row, and for nothing else of them: when one of these two requests
    fails, the emitter it returned emits neither ['success'] nor
    ['error'].  Only the final save hands both its ends on. *)
Definition user_setPassword (user : User) (pass : PasswordInstance) : Chain unit :=
  chain_then
    (unheard (perform request;
              fun w => (inr (list_find (password_of (id user)) (passwords w)), w)))
    (fun old =>
       chain_then
         (match old with
          | Some (k, _) =>
              unheard (perform request;
                       fun w => (inr tt, set_passwords (alter pw_unlink k) w))
          | None => settled (resolve tt)
          end)
         (fun _ => settled (password_save (id user) pass))).

(** [instance.destroy()]: deletes the row with the primary key of the
    instance. *)
Definition password_destroy (pass : PasswordInstance) : Promise unit :=
  perform request;
  fun w =>
    match pi_id pass with
    | Some k => (inr tt, set_passwords (alter (fun _ => None) k) w)
    | None => (inr tt, w)
    end.

(** ** The exported operations (index.js, lines 282-461)

    Each takes the reading of [Date.now()] made by the call, where the
    source reads the clock. *)

Definition createToken (now : Z) (entropy : nat -> Z) (userObj : User) (appURL : string) :
  World -> Outcome unit * World :=
  let token := loginToken_build (proquint.encode (crypto_randomBytes entropy 4)) (id userObj) now in
  complete (
    await savedToken <- loginToken_save token;
    perform hatchet_send "login_token_email"
      [ ("userId", JsNumber (Z.of_nat (id userObj)));
        ("username", JsString (username userObj));
        ("verified", JsBoolean (verified userObj));
        ("email", JsString (email userObj));
        ("loginUrl", JsString (appURL ++ "/?uid=" ++ username userObj ++ "&token="
                                 ++ lt_token savedToken));
        ("token", JsString (lt_token savedToken)) ];
    resolve tt).

Definition lookupToken (now : Z) (userObj : User) (token : string) :
  World -> Outcome unit * World :=
  complete (
    await loginToken <- loginToken_find
      (loginToken_where (id userObj) token (utc_format (now - TOKEN_EXPIRY_TIME)));
    match loginToken with
    | None => reject (ErrObject "unauthorized")
    | Some (i, _) => loginToken_updateAttributes i true
    end).

Definition invalidateActiveResets (now : Z) (user : User) : World -> Outcome nat * World :=
  complete (
    resetCode_update true
      (resetCode_active (id user) (utc_format (now - RESET_EXPIRY_TIME)))).

(** [WEBMAKERORG] is the value of [env.get('WEBMAKERORG')]; [stack] and
    [random] feed [hat]. *)
Definition createResetCode (now : Z) (stack : nat) (random : nat -> Z) (WEBMAKERORG : string)
  (user : User) : World -> Outcome unit * World :=
  match Hat.hat stack RESET_CODE_BIT_LENGTH RESET_CODE_BASE random with
  | None => fun w => (Throws RangeError, w)
  | Some code =>
      let userResetCode := resetCode_build code (id user) now in
      complete (
        error_
          (await saved <- resetCode_save userResetCode;
           let resetUrl := WEBMAKERORG ++ "/?uid=" ++ username user ++ "&resetCode="
                             ++ rc_code userResetCode in
           perform hatchet_send "reset_code_created"
             [ ("email", JsString (email user));
               ("username", JsString (username user));
               ("resetUrl", JsString resetUrl) ];
           resolve tt)
          (fun err => reject (ErrString "Error Creating Reset Authorization")))
  end.

Definition validateReset (now : Z) (code : string) (user : User) :
  World -> Outcome bool * World :=
  complete (
    await rc <- resetCode_find
      (resetCode_where code (id user) (utc_format (now - RESET_EXPIRY_TIME)));
    match rc with
    | None => resolve false
    | Some (i, _) =>
        perform resetCode_updateAttributes i true;
        resolve true
    end).

Definition pi_set_saltedHash (h : option string) (p : PasswordInstance) : PasswordInstance :=
  {| pi_id := pi_id p; pi_saltedHash := h |}.

(** Both bcrypt callbacks receive [err] and never look at it: the value
    that came with it, [undefined] after an error, is used as it is
    ([bcrypt.hash] given an [undefined] salt reports an error to its
    callback in turn).  [firstPassword] is computed and never read.  The
    chain waits for [user.setPassword], which may never settle. *)
Definition changePassword (bcrypt : Bcrypt) (newPass : string) (user : User) :
  World -> Outcome unit * World :=
  let pass := match password user with Some p => p | None => password_build end in
  let salt := bcrypt_genSalt bcrypt BCRYPT_ROUNDS in
  let hash := match salt with
              | Some s => bcrypt_hash bcrypt newPass s
              | None => None
              end in
  let pass := pi_set_saltedHash hash pass in
  chain_complete (
    chain_error
      (chain_then (settled (user_updateAttributes user true)) (fun _ =>
       chain_then (user_setPassword user pass) (fun _ =>
       settled (perform hatchet_send "user-password-changed"
                  [ ("email", JsString (email user));
                    ("username", JsString (username user)) ];
                resolve tt))))
      (fun err => settled (reject (ErrObject "Login Database Error")))).

Definition removePassword (user : User) : World -> Outcome unit * World :=
  match password user with
  | None => fun w => (Throws TypeError, w)
  | Some p =>
      complete (
        error_
          (perform password_destroy p;
           perform user_updateAttributes user false;
           resolve tt)
          (fun err => reject (ErrObject "Error removing password")))
  end.

Definition compare (bcrypt : Bcrypt) (pass : string) (user : User) :
  World -> Outcome bool * World :=
  match password user with
  | None => fun w => (Throws TypeError, w)
  | Some p =>
      fun w =>
        (Callback match pi_saltedHash p with
                  | Some h =>
                      match bcrypt_compare bcrypt pass h with
                      | Some res => inr res
                      | None => inl ErrBcrypt
                      end
                  | None => inl ErrBcrypt
                  end, w)
  end.

(** ** Interleaved verifications

    Node runs one callback at a time, and a request to the database ends
    the callback that issued it: between the [find] of a verification
    and the [updateAttributes] in its continuation, callbacks of other
    requests may run.  A verification in flight is therefore in one of
    three phases, and one step runs one callback. *)

Inductive Flight (A : Type) :=
| Finding                       (* the find is about to be issued *)
| Flipping (i : nat)            (* the find answered row [i]; the update is about to be issued *)
| Finished (r : JsError + A).   (* the callback was invoked *)
Arguments Finding {A}.
Arguments Flipping {A} i.
Arguments Finished {A} r.

Definition lookupToken_step (now : Z) (userObj : User) (token : string)
  (st : Flight unit) (w : World) : Flight unit * World :=
  match st with
  | Finding =>
      match loginToken_find
              (loginToken_where (id userObj) token (utc_format (now - TOKEN_EXPIRY_TIME))) w with
      | (inl e, w') => (Finished (inl e), w')
      | (inr None, w') => (Finished (inl (ErrObject "unauthorized")), w')
      | (inr (Some (i, _)), w') => (Flipping i, w')
      end
  | Flipping i =>
      let (r, w') := loginToken_updateAttributes i true w in (Finished r, w')
  | Finished r => (Finished r, w)
  end.

Definition validateReset_step (now : Z) (code : string) (user : User)
  (st : Flight bool) (w : World) : Flight bool * World :=
  match st with
  | Finding =>
      match resetCode_find
              (resetCode_where code (id user) (utc_format (now - RESET_EXPIRY_TIME))) w with
      | (inl e, w') => (Finished (inl e), w')
      | (inr None, w') => (Finished (inr false), w')
      | (inr (Some (i, _)), w') => (Flipping i, w')
      end
  | Flipping i =>
      let (r, w') := (perform resetCode_updateAttributes i true; resolve true) w in
      (Finished r, w')
  | Finished r => (Finished r, w)
  end.

(** Two verifications [a] and [b] under a schedule: [true] lets [a] run
    its next callback, [false] lets [b]. *)
Fixpoint interleave {A} (step_a step_b : Flight A -> World -> Flight A * World)
  (schedule : list bool) (a b : Flight A) (w : World) : Flight A * Flight A * World :=
  match schedule with
  | [] => (a, b, w)
  | true :: rest =>
      let (a', w') := step_a a w in interleave step_a step_b rest a' b w'
  | false :: rest =>
      let (b', w') := step_b b w in interleave step_a step_b rest a b' w'
  end.

(** ** The properties the specification speaks about *)

(** A login token "no older than 30 minutes before now". *)
Definition token_within_ttl (now : Z) (UserId : nat) (token : string) (r : LoginToken) : Prop :=
  lt_UserId r = UserId /\ lt_token r = token /\ lt_used r = false /\
  now - lt_createdAt r <= TOKEN_EXPIRY_TIME.

(** The same with the age counted in whole seconds: the second of the
    creation is not before the second that contains [now - 30 min]. *)
Definition token_live (now : Z) (UserId : nat) (token : string) (r : LoginToken) : Prop :=
  lt_UserId r = UserId /\ lt_token r = token /\ lt_used r = false /\
  (now - TOKEN_EXPIRY_TIME) / 1000 <= lt_createdAt r / 1000.

(** A reset code of the user that is unused, not invalidated and "within
    the 24-hour window". *)
Definition reset_within_ttl (now : Z) (UserId : nat) (r : ResetCode) : Prop :=
  rc_UserId r = UserId /\ rc_used r = false /\ rc_invalid r = false /\
  now - rc_createdAt r <= RESET_EXPIRY_TIME.

#[global] Instance reset_within_ttl_dec now UserId r : Decision (reset_within_ttl now UserId r).
Proof. unfold reset_within_ttl. apply _. Defined.

(** The same with the age counted in whole seconds. *)
Definition reset_live (now : Z) (UserId : nat) (r : ResetCode) : Prop :=
  rc_UserId r = UserId /\ rc_used r = false /\ rc_invalid r = false /\
  (now - RESET_EXPIRY_TIME) / 1000 <= rc_createdAt r / 1000.

#[global] Instance reset_live_dec now UserId r : Decision (reset_live now UserId r).
Proof. unfold reset_live. apply _. Defined.

(** The number of password rows linked to a user. *)
Definition credentials (UserId : nat) (w : World) : nat :=
  length (filter (password_of UserId) (passwords w)).

(** The declared format of a login token: two words of five letters,
    consonant-vowel-consonant-vowel-consonant, joined by a dash.
    [login_token_bytes] reads such a text back into its four octets, the
    first letter of a word being its least significant, and answers
    [None] on any other text. *)
Fixpoint index_of (c : ascii) (s : string) : option Z :=
  match s with
  | EmptyString => None
  | String c' s' =>
      if Ascii.eqb c c' then Some 0
      else match index_of c s' with
           | Some n => Some (n + 1)
           | None => None
           end
  end.

Definition quint_value (q : string) : option Z :=
  match q with
  | String a (String b (String c (String d (String e EmptyString)))) =>
      match index_of a proquint.consonants, index_of b proquint.vowels,
            index_of c proquint.consonants, index_of d proquint.vowels,
            index_of e proquint.consonants with
      | Some c1, Some v1, Some c2, Some v2, Some c3 =>
          Some (c3 * 4096 + v2 * 1024 + c2 * 64 + v1 * 16 + c1)
      | _, _, _, _, _ => None
      end
  | _ => None
  end.

Definition login_token_bytes (s : string) : option (list Z) :=
  if (String.length s =? 11)%nat && bool_decide (String.get 5 s = Some "-"%char) then
    match quint_value (String.substring 0 5 s), quint_value (String.substring 6 5 s) with
    | Some hi, Some lo => Some [hi / 256; hi mod 256; lo / 256; lo mod 256]
    | _, _ => None
    end
  else None.




(** ** Auxiliary definitions and sample inputs *)

(** A user without a loaded password, and a database with no rows. *)
Definition alice : User :=
  {| id := 1; username := "alice"; email := "alice@example.org"; verified := true;
     password := None |}.

Definition empty_world : World :=
  {| loginTokens := []; resetCodes := []; passwords := []; users := []; hatchet := [];
     failing := [] |}.

(** One unused token of alice, created 300 ms after the epoch. *)
Definition stale_token_world : World :=
  set_loginTokens (fun _ => [loginToken_build "lusab-babad" 1 300]) empty_world.

(** An entropy stream that starts with the octets 127, 0, 0, 1, which
    the package writes as [basul-dabab]. *)
Definition localhost_octets (i : nat) : Z :=
  match i with
  | O => 127
  | 3%nat => 1
  | _ => 0
  end.

(** An entropy stream of zeros: the octets 0, 0, 0, 0, written as
    [babab-babab]. *)
Definition zero_octets (i : nat) : Z := 0.

(** alice already holds an unused token with that text. *)
Definition twin_token_world : World :=
  set_loginTokens (fun _ => [loginToken_build "babab-babab" 1 0]) empty_world.

(** Two unused tokens of alice with one text, created at 1000 and at
    1500, and two unused codes of hers with one text. *)
Definition two_token_world : World :=
  set_loginTokens (fun _ => [loginToken_build "basul-dabab" 1 1000;
                             loginToken_build "basul-dabab" 1 1500]) empty_world.

Definition two_code_world : World :=
  set_resetCodes (fun _ => [resetCode_build "c0de" 1 1000;
                            resetCode_build "c0de" 1 1500]) empty_world.

(** One unused, valid code of alice, created 300 ms after the epoch. *)
Definition stale_code_world : World :=
  set_resetCodes (fun _ => [resetCode_build "c0de" 1 300]) empty_world.

(** Two streams of [Math.random] draws: all zeros, and 0, 1, 2, ... *)
Definition zero_draws (i : nat) : Z := 0.
Definition count_draws (i : nat) : Z := Z.of_nat i.

(** The schedule: [a] finds, [b] finds, [a] flips, [b] flips. *)
Definition find_find_flip_flip : list bool := [true; false; true; false].

(** One unused token and one unused code of alice, both created at 1000. *)
Definition fresh_world : World :=
  set_resetCodes (fun _ => [resetCode_build "c0de" 1 1000])
    (set_loginTokens (fun _ => [loginToken_build "lusab-babad" 1 1000]) empty_world).

(** The password table after [user.setPassword(pass)] on a database that
    answers. *)
Definition relink (UserId : nat) (pass : PasswordInstance) (t : list (option Password)) :
  list (option Password) :=
  let t1 := match list_find (password_of UserId) t with
            | Some (k, _) => alter pw_unlink k t
            | None => t
            end in
  let row := {| pw_UserId := Some UserId; pw_saltedHash := pi_saltedHash pass |} in
  match pi_id pass with
  | None => (t1 ++ [Some row])%list
  | Some k => alter (fun o => match o with Some _ => Some row | None => None end) k t1
  end.

(** The notification sent by [changePassword]. *)
Definition password_changed_event (user : User) : Event :=
  ("user-password-changed",
   [("email", JsString (email user)); ("username", JsString (username user))]).

(** A bcrypt that makes salts and fails to hash, and one that works. *)
Definition bcrypt_broken : Bcrypt :=
  {| bcrypt_genSalt := fun _ => Some "salt";
     bcrypt_hash := fun _ _ => None;
     bcrypt_compare := fun _ _ => None |}.

(** A stand-in that "hashes" by joining the salt and the data. *)
Definition bcrypt_toy : Bcrypt :=
  {| bcrypt_genSalt := fun _ => Some "salt";
     bcrypt_hash := fun data salt => Some (salt ++ "$" ++ data);
     bcrypt_compare := fun data h => Some (String.eqb h ("salt$" ++ data)) |}.

Definition alice_row : UserRow :=
  {| u_username := "alice"; u_email := "alice@example.org"; u_verified := true;
     u_usePasswordLogin := false |}.

(** alice is user 1 of a table of two users and has no password yet. *)
Definition users_world : World :=
  set_users (fun _ => [alice_row; alice_row]) empty_world.

(** alice with the password row 0 loaded. *)
Definition alice_with_password : User :=
  {| id := 1; username := "alice"; email := "alice@example.org"; verified := true;
     password := Some {| pi_id := Some 0%nat; pi_saltedHash := Some "salt$old" |} |}.

(** The same table of users, and alice's password row. *)
Definition password_world : World :=
  set_passwords (fun _ => [Some {| pw_UserId := Some 1%nat; pw_saltedHash := Some "salt$old" |}])
    users_world.

(** Checks, for [count] consecutive words from [n] on, that the five
    letters of the word read back as the word. *)
Fixpoint quints_round_trip (count : nat) (n : Z) : bool :=
  match count with
  | O => true
  | S count' =>
      bool_decide (quint_value (proquint.encode16 n) = Some n)
      && quints_round_trip count' (n + 1)
  end.

(** ** Sequences of calls

    A caller of the module: one exported operation with its arguments,
    and the world after a sequence of them, whatever each one called
    back with. *)

Inductive Call :=
| CreateToken (now : Z) (entropy : nat -> Z) (userObj : User) (appURL : string)
| LookupToken (now : Z) (userObj : User) (token : string)
| InvalidateActiveResets (now : Z) (user : User)
| CreateResetCode (now : Z) (stack : nat) (random : nat -> Z) (WEBMAKERORG : string)
    (user : User)
| ValidateReset (now : Z) (code : string) (user : User)
| ChangePassword (bcrypt : Bcrypt) (newPass : string) (user : User)
| RemovePassword (user : User)
| Compare (bcrypt : Bcrypt) (pass : string) (user : User).

Definition world_after (c : Call) (w : World) : World :=
  match c with
  | CreateToken now entropy userObj appURL => snd (createToken now entropy userObj appURL w)
  | LookupToken now userObj token => snd (lookupToken now userObj token w)
  | InvalidateActiveResets now user => snd (invalidateActiveResets now user w)
  | CreateResetCode now stack random WEBMAKERORG user =>
      snd (createResetCode now stack random WEBMAKERORG user w)
  | ValidateReset now code user => snd (validateReset now code user w)
  | ChangePassword bcrypt newPass user => snd (changePassword bcrypt newPass user w)
  | RemovePassword user => snd (removePassword user w)
  | Compare bcrypt pass user => snd (compare bcrypt pass user w)
  end.

Definition world_after_all (calls : list Call) (w : World) : World :=
  foldl (fun w c => world_after c w) w calls.

(** Everything but the script of the database is the same. *)
Definition same_tables (w w' : World) : Prop :=
  loginTokens w' = loginTokens w /\ resetCodes w' = resetCodes w /\
  passwords w' = passwords w /\ users w' = users w /\ hatchet w' = hatchet w.

(** A later state of a login token row: same owner, text and creation
    time, and still used if it was. *)
Definition token_kept (r r' : LoginToken) : Prop :=
  lt_UserId r' = lt_UserId r /\ lt_token r' = lt_token r /\
  lt_createdAt r' = lt_createdAt r /\ (lt_used r = true -> lt_used r' = true).

(** A later state of a reset code row. *)
Definition code_kept (r r' : ResetCode) : Prop :=
  rc_UserId r' = rc_UserId r /\ rc_code r' = rc_code r /\
  rc_createdAt r' = rc_createdAt r /\
  (rc_used r = true -> rc_used r' = true) /\
  (rc_invalid r = true -> rc_invalid r' = true).

(** A later state of a user row: only [usePasswordLogin] may differ. *)
Definition user_kept (r r' : UserRow) : Prop :=
  u_username r' = u_username r /\ u_email r' = u_email r /\ u_verified r' = u_verified r.

(** [w'] is a later state of [w]: every token, code and user row is still
    there under its key, in a later state; keys of password rows are
    never given out twice; what was sent stays sent. *)
Definition evolves (w w' : World) : Prop :=
  (forall i r, loginTokens w !! i = Some r ->
     exists r', loginTokens w' !! i = Some r' /\ token_kept r r') /\
  (forall i r, resetCodes w !! i = Some r ->
     exists r', resetCodes w' !! i = Some r' /\ code_kept r r') /\
  (forall i r, users w !! i = Some r ->
     exists r', users w' !! i = Some r' /\ user_kept r r') /\
  length (users w') = length (users w) /\
  (length (passwords w) <= length (passwords w'))%nat /\
  hatchet w `prefix_of` hatchet w'.

(** A promise that only ever moves the world to a later state, and a
    chain that does, settled or not. *)
Definition steady {A} (p : Promise A) : Prop := forall w, evolves w (snd (p w)).

Definition steady_chain {A} (c : Chain A) : Prop := forall w, evolves w (snd (c w)).

(** The notifications of [createToken] and [createResetCode]. *)
Definition login_token_email (userObj : User) (appURL token : string) : Event :=
  ("login_token_email",
   [ ("userId", JsNumber (Z.of_nat (id userObj)));
     ("username", JsString (username userObj));
     ("verified", JsBoolean (verified userObj));
     ("email", JsString (email userObj));
     ("loginUrl", JsString (appURL ++ "/?uid=" ++ username userObj ++ "&token=" ++ token));
     ("token", JsString token) ]).

Definition reset_code_created (user : User) (WEBMAKERORG code : string) : Event :=
  ("reset_code_created",
   [ ("email", JsString (email user));
     ("username", JsString (username user));
     ("resetUrl", JsString (WEBMAKERORG ++ "/?uid=" ++ username user ++ "&resetCode="
                              ++ code)) ]).

(** The user instance as it is loaded together with its password row,
    the row with key [k]. *)
Definition with_password (user : User) (k : nat) (row : Password) : User :=
  {| id := id user; username := username user; email := email user;
     verified := verified user;
     password := Some {| pi_id := Some k; pi_saltedHash := pw_saltedHash row |} |}.

(** No password row other than the one with key [k] is linked to user
    [UserId]. *)
Definition only_password_at (UserId k : nat) (w : World) : Prop :=
  forall j o, passwords w !! j = Some o -> password_of UserId o -> j = k.

(** ** The user operations (index.js, lines 50-72 and 110-226)

    [createUser], the three single-row finders and [deleteUser] read and
    write whole rows of the users table, of which the operations above
    only touch one flag; they are modelled over a state of their own: the
    users table with the columns [createUser] writes, the notifications
    sent, and the script of the database.  A destroyed row leaves a hole:
    keys are not reused. *)

#[global] Instance JsValue_eq_dec : EqDecision JsValue.
Proof. solve_decision. Defined.

(** JavaScript's truthiness of a property that may be absent. *)
Definition truthy (v : option JsValue) : bool :=
  match v with
  | None => false
  | Some (JsString s) => negb (String.eqb s "")
  | Some (JsNumber n) => negb (n =? 0)%Z
  | Some (JsBoolean b) => b
  end.

(** The properties of [data] that [createUser] reads. *)
Record UserData := {
  data_username : option JsValue;
  data_email : option JsValue;
  data_mailingList : option JsValue;
  data_prefLocale : option JsValue
}.

Record Account := {
  a_email : JsValue;
  a_fullName : string;
  a_subscribeToWebmakerList : option JsValue;
  a_username : string;
  a_lastLoggedIn : Z;
  a_prefLocale : option JsValue
}.

(** What [user.js], which is not among the sources at hand, contributes
    to [createUser]: the defaults of the two columns that may be left
    out, and the validation rules. *)
Record UserModel := {
  default_subscribeToWebmakerList : option JsValue;
  default_prefLocale : option JsValue;
  validate : Account -> option JsError
}.

Record Site := {
  site_users : list (option Account);
  site_hatchet : list Event;
  site_failing : list bool
}.

(** One request: [true] when the database answers. *)
Definition site_request (s : Site) : bool * Site :=
  match site_failing s with
  | true :: rest =>
      (false, {| site_users := site_users s; site_hatchet := site_hatchet s;
                 site_failing := rest |})
  | false :: rest =>
      (true, {| site_users := site_users s; site_hatchet := site_hatchet s;
                site_failing := rest |})
  | [] => (true, s)
  end.

Definition site_send (e : Event) (s : Site) : Site :=
  {| site_users := site_users s; site_hatchet := (site_hatchet s ++ [e])%list;
     site_failing := site_failing s |}.

Definition site_set_users (f : list (option Account) -> list (option Account)) (s : Site) :
  Site :=
  {| site_users := f (site_users s); site_hatchet := site_hatchet s;
     site_failing := site_failing s |}.

(** A property whose value is [undefined] is not part of the message. *)
Definition optional (key : string) (v : option JsValue) : list (string * JsValue) :=
  match v with
  | Some x => [(key, x)]
  | None => []
  end.

(** [user.build({ ... })]: the instance holds the values it was given.
    The two optional properties are always passed, as [undefined] when
    [data] lacks them; a key that is passed keeps its value, so the
    instance holds [undefined] there and not the default of the column. *)
Definition user_build (email : JsValue) (fullName : string)
  (subscribeToWebmakerList : option JsValue) (username : string) (lastLoggedIn : Z)
  (prefLocale : option JsValue) : Account :=
  {| a_email := email;
     a_fullName := fullName;
     a_subscribeToWebmakerList := subscribeToWebmakerList;
     a_username := username;
     a_lastLoggedIn := lastLoggedIn;
     a_prefLocale := prefLocale |}.

(** The row that the insert of an instance writes: a column that the
    instance leaves [undefined] takes its default in the table. *)
Definition user_insert (m : UserModel) (userObj : Account) : Account :=
  {| a_email := a_email userObj;
     a_fullName := a_fullName userObj;
     a_subscribeToWebmakerList :=
       match a_subscribeToWebmakerList userObj with
       | Some v => Some v
       | None => default_subscribeToWebmakerList m
       end;
     a_username := a_username userObj;
     a_lastLoggedIn := a_lastLoggedIn userObj;
     a_prefLocale :=
       match a_prefLocale userObj with
       | Some v => Some v
       | None => default_prefLocale m
       end |}.

(** Keys are given out counting up from 1: the first row of an empty
    table gets key 1, and key 0 stays a hole. *)
Definition next_key (t : list (option Account)) : nat := Nat.max 1 (length t).

Definition insert_row (row : Account) (t : list (option Account)) : list (option Account) :=
  (t ++ replicate (next_key t - length t) None ++ [Some row])%list.

(** [toLowerCase] is the method of JavaScript strings; a truthy username
    that is not a string has no such method.  The callback of a
    successful call receives the saved instance, that is the instance as
    built together with its new key; the notification is made from the
    same instance. *)
Definition createUser (m : UserModel) (toLowerCase : string -> string) (now : Z)
  (data : option UserData) (s : Site) : Outcome (nat * Account) * Site :=
  match data with
  | None => (Callback (inl (ErrString "No data passed!")), s)
  | Some data =>
      if negb (truthy (data_username data))
      then (Callback (inl (ErrString "No username passed!")), s)
      else if negb (truthy (data_email data))
      then (Callback (inl (ErrString "No email passed!")), s)
      else
        match data_username data, data_email data with
        | Some (JsString name), Some email =>
            let userObj :=
              user_build email name (data_mailingList data) (toLowerCase name) now
                (data_prefLocale data) in
            match validate m userObj with
            | Some err => (Callback (inl err), s)
            | None =>
                match site_request s with
                | (false, s1) => (Callback (inl ErrStore), s1)
                | (true, s1) =>
                    let userId := next_key (site_users s1) in
                    (Callback (inr (userId, userObj)),
                     site_send
                       ("create_user",
                        ([ ("userId", JsNumber (Z.of_nat userId));
                           ("username", JsString (a_username userObj));
                           ("email", a_email userObj) ]
                         ++ optional "locale" (a_prefLocale userObj)
                         ++ optional "subscribeToWebmakerList"
                              (a_subscribeToWebmakerList userObj))%list)
                       (site_set_users (insert_row (user_insert m userObj)) s1))
                end
            end
        | _, _ => (Throws TypeError, s)
        end
  end.

Definition account_where (P : Account -> Prop) (o : option Account) : Prop :=
  exists a, o = Some a /\ P a.

#[global] Instance account_where_dec (P : Account -> Prop) `{!forall a, Decision (P a)} o :
  Decision (account_where P o).
Proof.
  destruct o as [a|].
  - destruct (decide (P a)) as [Ha|Ha].
    + left. exists a. split; [reflexivity | exact Ha].
    + right. intros (a' & E & Ha'). apply (inj Some) in E. subst a'. contradiction.
  - right. intros (a' & E & _). discriminate.
Defined.

(** [user.find({ where }).complete(callback)]: the callback receives the
    first matching row, or [null]. *)
Definition user_find (P : Account -> Prop) `{!forall a, Decision (P a)} (s : Site) :
  Outcome (option (nat * Account)) * Site :=
  match site_request s with
  | (false, s1) => (Callback (inl ErrStore), s1)
  | (true, s1) =>
      (Callback (inr match list_find (account_where P) (site_users s1) with
                     | Some (i, Some a) => Some (i, a)
                     | _ => None
                     end), s1)
  end.

Definition getUserById (userId : nat) (s : Site) : Outcome (option (nat * Account)) * Site :=
  match site_request s with
  | (false, s1) => (Callback (inl ErrStore), s1)
  | (true, s1) =>
      (Callback (inr match site_users s1 !! userId with
                     | Some (Some a) => Some (userId, a)
                     | _ => None
                     end), s1)
  end.

Definition getUserByUsername (username : string) (s : Site) :
  Outcome (option (nat * Account)) * Site :=
  user_find (fun a => a_username a = username) s.

Definition getUserByEmail (email : string) (s : Site) :
  Outcome (option (nat * Account)) * Site :=
  user_find (fun a => a_email a = JsString email) s.

Definition delete_user_event (userId : nat) (user : Account) : Event :=
  ("delete_user",
   ([ ("userId", JsNumber (Z.of_nat userId));
      ("username", JsString (a_username user)) ]
    ++ optional "locale" (a_prefLocale user)
    ++ [ ("email", a_email user) ])%list).

Definition deleteUser (email : string) (s : Site) : Outcome unit * Site :=
  match getUserByEmail email s with
  | (Callback (inl err), s1) => (Callback (inl err), s1)
  | (Callback (inr None), s1) => (Callback (inl (ErrString "User not found!")), s1)
  | (Callback (inr (Some (userId, user))), s1) =>
      match site_request s1 with
      | (false, s2) => (Callback (inl ErrStore), s2)
      | (true, s2) =>
          (Callback (inr tt),
           site_send (delete_user_event userId user)
             (site_set_users (alter (fun _ => None) userId) s2))
      end
  | (Throws e, s1) => (Throws e, s1)
  | (NoCallback, s1) => (NoCallback, s1)
  end.

(** Lowercasing of the letters A to Z, for sample inputs. *)
Definition ascii_lower (c : ascii) : ascii :=
  let n := N_of_ascii c in
  if ((65 <=? n) && (n <=? 90))%N then ascii_of_N (n + 32) else c.

Fixpoint ascii_toLowerCase (s : string) : string :=
  match s with
  | EmptyString => EmptyString
  | String c s' => String (ascii_lower c) (ascii_toLowerCase s')
  end.

Definition lenient_model : UserModel :=
  {| default_subscribeToWebmakerList := Some (JsBoolean false);
     default_prefLocale := Some (JsString "en-US");
     validate := fun _ => None |}.

Definition empty_site : Site :=
  {| site_users := []; site_hatchet := []; site_failing := [] |}.

Definition bob_data : UserData :=
  {| data_username := Some (JsString "Bob"); data_email := Some (JsString "bob@example.org");
     data_mailingList := None; data_prefLocale := None |}.

(** The [create_user] notification for a key and an instance. *)
Definition create_user_event (userId : nat) (userObj : Account) : Event :=
  ("create_user",
   ([ ("userId", JsNumber (Z.of_nat userId));
      ("username", JsString (a_username userObj));
      ("email", a_email userObj) ]
    ++ optional "locale" (a_prefLocale userObj)
    ++ optional "subscribeToWebmakerList" (a_subscribeToWebmakerList userObj))%list).

(** * Properties *)

(** ** The database script and the clock *)

Lemma request_healthy (w : World) : failing w = [] -> request w = (inr tt, w).
Proof. intros H. unfold request. rewrite H. reflexivity. Qed.

Lemma request_rejected (w : World) rest :
  failing w = true :: rest -> request w = (inl ErrStore, set_failing (fun _ => rest) w).
Proof. intros H. unfold request. rewrite H. reflexivity. Qed.

Lemma utc_format_le (bound created : Z) :
  utc_format bound <= created <-> bound / 1000 <= created / 1000.
Proof.
  unfold utc_format. split; intros H.
  - apply Z.div_le_lower_bound; lia.
  - pose proof (Z.mul_div_le created 1000). lia.
Qed.

(** A row no older than the expiry time is inside the queried range, and
    a row inside the range is less than one second older than that. *)
Lemma utc_format_window (now ttl created : Z) :
  (now - created <= ttl -> utc_format (now - ttl) <= created) /\
  (utc_format (now - ttl) <= created -> now - created < ttl + 1000).
Proof.
  unfold utc_format.
  pose proof (Z.mul_div_le (now - ttl) 1000).
  pose proof (Z.mod_pos_bound (now - ttl) 1000).
  pose proof (Z.div_mod (now - ttl) 1000).
  split; lia.
Qed.

Lemma utc_format_mono (a b : Z) : a <= b -> utc_format a <= utc_format b.
Proof.
  intros H. unfold utc_format.
  pose proof (Z.div_le_mono a b 1000). lia.
Qed.

Lemma loginToken_where_live now UserId token r :
  loginToken_where UserId token (utc_format (now - TOKEN_EXPIRY_TIME)) r <->
  token_live now UserId token r.
Proof. unfold loginToken_where, token_live. rewrite utc_format_le. reflexivity. Qed.

(** The window of the specification and the window of the query: every
    token no older than 30 minutes is inside the queried range, and a
    token inside the range is less than 30 minutes and one second old. *)
Lemma token_within_ttl_live now UserId token r :
  (token_within_ttl now UserId token r -> token_live now UserId token r) /\
  (token_live now UserId token r ->
   lt_UserId r = UserId /\ lt_token r = token /\ lt_used r = false /\
   now - lt_createdAt r < TOKEN_EXPIRY_TIME + 1000).
Proof.
  unfold token_within_ttl, token_live.
  pose proof (utc_format_window now TOKEN_EXPIRY_TIME (lt_createdAt r)) as [Hin Hout].
  rewrite utc_format_le in Hin, Hout. tauto.
Qed.

Lemma reset_within_ttl_live now UserId r :
  (reset_within_ttl now UserId r -> reset_live now UserId r) /\
  (reset_live now UserId r ->
   rc_UserId r = UserId /\ rc_used r = false /\ rc_invalid r = false /\
   now - rc_createdAt r < RESET_EXPIRY_TIME + 1000).
Proof.
  unfold reset_within_ttl, reset_live.
  pose proof (utc_format_window now RESET_EXPIRY_TIME (rc_createdAt r)) as [Hin Hout].
  rewrite utc_format_le in Hin, Hout. tauto.
Qed.

Lemma resetCode_active_live now UserId r :
  resetCode_active UserId (utc_format (now - RESET_EXPIRY_TIME)) r <-> reset_live now UserId r.
Proof. unfold resetCode_active, reset_live. rewrite utc_format_le. reflexivity. Qed.

(** ** Login tokens *)

Lemma lookupToken_found now userObj token w i r :
  failing w = [] ->
  list_find (loginToken_where (id userObj) token (utc_format (now - TOKEN_EXPIRY_TIME)))
    (loginTokens w) = Some (i, r) ->
  lookupToken now userObj token w =
    (Callback (inr tt), set_loginTokens (alter (lt_set_used true) i) w).
Proof.
  intros Hh Hf. unfold lookupToken, complete, then_, loginToken_find, then_.
  rewrite (request_healthy w Hh), Hf.
  unfold loginToken_updateAttributes, then_.
  rewrite (request_healthy w Hh). reflexivity.
Qed.

Lemma lookupToken_not_found now userObj token w :
  failing w = [] ->
  list_find (loginToken_where (id userObj) token (utc_format (now - TOKEN_EXPIRY_TIME)))
    (loginTokens w) = None ->
  lookupToken now userObj token w = (Callback (inl (ErrObject "unauthorized")), w).
Proof.
  intros Hh Hf. unfold lookupToken, complete, then_, loginToken_find, then_.
  rewrite (request_healthy w Hh), Hf. reflexivity.
Qed.

(** The first row that a finder answers: it matches, and no row before it
    does. *)
Lemma loginToken_find_first now UserId token (l : list LoginToken) i r :
  list_find (loginToken_where UserId token (utc_format (now - TOKEN_EXPIRY_TIME))) l
    = Some (i, r) ->
  l !! i = Some r /\ token_live now UserId token r /\
  (forall j r0, (j < i)%nat -> l !! j = Some r0 -> ~ token_live now UserId token r0).
Proof.
  intros Hf. apply list_find_Some in Hf as (Hi & HP & Hmin).
  split; [exact Hi|]. split; [apply loginToken_where_live; exact HP|].
  intros j r0 Hj Hr0 Hl. apply (Hmin j r0 Hr0 Hj). apply loginToken_where_live. exact Hl.
Qed.

(** The row under key [i] after the update of [lookupToken]: [used] is
    true and the other columns are as they were; no other row differs. *)
Lemma loginToken_flipped (l : list LoginToken) i r :
  l !! i = Some r ->
  (exists r', alter (lt_set_used true) i l !! i = Some r' /\
     lt_used r' = true /\ lt_UserId r' = lt_UserId r /\ lt_token r' = lt_token r /\
     lt_createdAt r' = lt_createdAt r) /\
  length (alter (lt_set_used true) i l) = length l /\
  (forall j, j <> i -> alter (lt_set_used true) i l !! j = l !! j).
Proof.
  intros Hi. split; [|split].
  - exists (lt_set_used true r). rewrite list_lookup_alter_eq, Hi. repeat split.
  - apply length_alter.
  - intros j Hj. apply list_lookup_alter_ne. congruence.
Qed.

(** C1, as amended.  With a database that answers, [lookupToken] succeeds
    exactly when some stored row has the user's id and the token, is
    unused, and was created no earlier than the second that contains
    [now - 30 min].  It then calls back without error and the first such
    row, the one with the least key, has [used] true and its other columns
    as before; every other row, every other table and the notifications
    are unchanged.  When no such row exists it calls back with
    [{ error: "unauthorized" }] and changes nothing, whatever made the rows
    fail to match. *)
Theorem lookupToken_spec (now : Z) (userObj : User) (token : string) (w : World) :
  failing w = [] ->
  let live := token_live now (id userObj) token in
  (fst (lookupToken now userObj token w) = Callback (inr tt) <->
   exists r, r ∈ loginTokens w /\ live r) /\
  ((exists r, r ∈ loginTokens w /\ live r) ->
   exists i r r' w',
     loginTokens w !! i = Some r /\ live r /\
     (forall j r0, (j < i)%nat -> loginTokens w !! j = Some r0 -> ~ live r0) /\
     lookupToken now userObj token w = (Callback (inr tt), w') /\
     loginTokens w' !! i = Some r' /\
     lt_used r' = true /\ lt_UserId r' = lt_UserId r /\ lt_token r' = lt_token r /\
     lt_createdAt r' = lt_createdAt r /\
     length (loginTokens w') = length (loginTokens w) /\
     (forall j, j <> i -> loginTokens w' !! j = loginTokens w !! j) /\
     resetCodes w' = resetCodes w /\ passwords w' = passwords w /\
     users w' = users w /\ hatchet w' = hatchet w /\ failing w' = failing w) /\
  ((~ exists r, r ∈ loginTokens w /\ live r) ->
   lookupToken now userObj token w = (Callback (inl (ErrObject "unauthorized")), w)).
Proof.
  intros Hh live.
  set (P := loginToken_where (id userObj) token (utc_format (now - TOKEN_EXPIRY_TIME))).
  destruct (list_find P (loginTokens w)) as [[i r]|] eqn:Hf.
  - pose proof (lookupToken_found now userObj token w i r Hh Hf) as Hrun.
    apply loginToken_find_first in Hf as (Hi & Hl & Hmin).
    assert (Hex : exists r, r ∈ loginTokens w /\ live r).
    { exists r. split; [eapply list_elem_of_lookup_2; eassumption | assumption]. }
    split; [|split].
    + rewrite Hrun. simpl. split; [intros _; exact Hex | reflexivity].
    + intros _.
      destruct (loginToken_flipped (loginTokens w) i r Hi)
        as ((r' & Hi' & Hused & Hu & Ht & Hc) & Hlen & Hrest).
      exists i, r, r', (set_loginTokens (alter (lt_set_used true) i) w).
      split; [exact Hi|]. split; [exact Hl|]. split; [exact Hmin|]. split; [exact Hrun|].
      split; [exact Hi'|]. split; [exact Hused|]. split; [exact Hu|]. split; [exact Ht|].
      split; [exact Hc|]. split; [exact Hlen|]. split; [exact Hrest|].
      repeat split.
    + intros Hn. contradiction.
  - pose proof (lookupToken_not_found now userObj token w Hh Hf) as Hrun.
    assert (Hn : ~ exists r, r ∈ loginTokens w /\ live r).
    { intros (r & Hin & Hl). apply list_find_None in Hf.
      rewrite Forall_forall in Hf. apply (Hf r Hin).
      apply loginToken_where_live. exact Hl. }
    split; [|split].
    + rewrite Hrun. simpl. split; [discriminate | intros Hex; contradiction].
    + intros Hex. contradiction.
    + intros _. exact Hrun.
Qed.

Lemma lookupToken_spec_witness :
  (exists w' r0 r1,
     lookupToken 2000 alice "basul-dabab" two_token_world = (Callback (inr tt), w') /\
     loginTokens w' = [r0; r1] /\ lt_used r0 = true /\ lt_used r1 = false) /\
  lookupToken 2000 alice "dabab-basul" two_token_world
    = (Callback (inl (ErrObject "unauthorized")), two_token_world).
Proof.
  destruct (lookupToken_spec 2000 alice "basul-dabab" two_token_world eq_refl)
    as (_ & Hok & _).
  destruct (lookupToken_spec 2000 alice "dabab-basul" two_token_world eq_refl)
    as (_ & _ & Hno).
  split.
  - destruct Hok as (i & r & r' & w' & Hi & _ & Hmin & Hrun & Hi' & Hused & _ & _ & _ &
                     Hlen & Hrest & _).
    { exists (loginToken_build "basul-dabab" 1 1000). split.
      - apply list_elem_of_here.
      - unfold token_live. cbn. repeat split. vm_compute. discriminate. }
    assert (i = 0%nat) as ->.
    { destruct i as [|i]; [reflexivity|]. exfalso.
      apply (Hmin 0%nat (loginToken_build "basul-dabab" 1 1000)); [lia | reflexivity |].
      unfold token_live. cbn. repeat split. vm_compute. discriminate. }
    pose proof (Hrest 1%nat ltac:(lia)) as H1. cbn in H1.
    destruct (loginTokens w') as [|x0 [|x1 [|x2 rest]]] eqn:Hw'; try discriminate.
    cbn in Hi', H1. apply (inj Some) in Hi', H1. subst x0 x1.
    exists w', r', (loginToken_build "basul-dabab" 1 1500).
    split; [exact Hrun|]. split; [exact Hw'|]. split; [exact Hused | reflexivity].
  - apply Hno. intros (r & Hin & Hl). destruct Hl as (_ & Htok & _).
    apply elem_of_cons in Hin as [-> | Hin]; [discriminate|].
    apply list_elem_of_singleton in Hin. subst r. discriminate.
Defined.

(** C1 as stated fails: 1 800 700 ms after the epoch, a token created
    at 300 ms is 30 minutes and 400 ms old, so no row is "no older than
    30 minutes"; the bound of the query is the text of second 0, and the
    verification succeeds. *)
Lemma lookupToken_sub_second_counterexample :
  (~ exists r, r ∈ loginTokens stale_token_world /\
               token_within_ttl 1800700 (id alice) "lusab-babad" r) /\
  fst (lookupToken 1800700 alice "lusab-babad" stale_token_world) = Callback (inr tt).
Proof.
  split.
  - intros (r & Hin & Hr). apply list_elem_of_singleton in Hin. subst r.
    destruct Hr as (_ & _ & _ & Hage). vm_compute in Hage. apply Hage. reflexivity.
  - vm_compute. reflexivity.
Qed.

Lemma createToken_healthy now entropy userObj appURL w :
  failing w = [] ->
  let token := loginToken_build (proquint.encode (crypto_randomBytes entropy 4)) (id userObj) now in
  exists q,
    createToken now entropy userObj appURL w =
      (Callback (inr tt),
       set_hatchet (fun _ => q) (set_loginTokens (fun t => (t ++ [token])%list) w)).
Proof.
  intros Hh token. eexists.
  unfold createToken, complete, then_, loginToken_save, then_.
  rewrite (request_healthy w Hh). cbn. reflexivity.
Qed.

(** C2, as amended.  Let a token be issued at [now] for a user who holds
    no other row with the same text that is unused and still inside the
    window.  Then a first verification at [now1], at most 30 minutes after
    the issue, succeeds, and a second one at any [now2] from then on fails
    with [{ error: "unauthorized" }]. *)
Theorem createToken_lookupToken_once (now now1 now2 : Z) (entropy : nat -> Z)
  (userObj : User) (appURL : string) (w : World) :
  let token := proquint.encode (crypto_randomBytes entropy 4) in
  failing w = [] ->
  (forall r, r ∈ loginTokens w -> lt_UserId r = id userObj -> lt_token r = token ->
             lt_used r = true \/ lt_createdAt r / 1000 < (now - TOKEN_EXPIRY_TIME) / 1000) ->
  now <= now1 -> now1 - now <= TOKEN_EXPIRY_TIME -> now1 <= now2 ->
  exists w1 w2,
    createToken now entropy userObj appURL w = (Callback (inr tt), w1) /\
    lookupToken now1 userObj token w1 = (Callback (inr tt), w2) /\
    lookupToken now2 userObj token w2 = (Callback (inl (ErrObject "unauthorized")), w2).
Proof.
  intros token Hh Hold H01 Httl H12.
  destruct (createToken_healthy now entropy userObj appURL w Hh) as [q Hc].
  cbv zeta in Hc. fold token in Hc.
  set (row := loginToken_build token (id userObj) now) in *.
  set (w1 := set_hatchet (fun _ => q) (set_loginTokens (fun t => (t ++ [row])%list) w)) in *.
  assert (Hdead : forall t, now <= t ->
            Forall (fun r => ~ loginToken_where (id userObj) token
                                 (utc_format (t - TOKEN_EXPIRY_TIME)) r) (loginTokens w)).
  { intros t Ht. apply Forall_forall. intros r Hin HP.
    apply loginToken_where_live in HP. destruct HP as (Hu & Htok & Hused & Hage).
    destruct (Hold r Hin Hu Htok) as [Hx | Hx]; [congruence|].
    pose proof (Z.div_le_mono (now - TOKEN_EXPIRY_TIME) (t - TOKEN_EXPIRY_TIME) 1000).
    lia. }
  assert (Hrow : loginToken_where (id userObj) token (utc_format (now1 - TOKEN_EXPIRY_TIME)) row).
  { unfold loginToken_where, row. simpl. repeat split.
    apply (utc_format_window now1 TOKEN_EXPIRY_TIME now). exact Httl. }
  assert (Hf1 : list_find (loginToken_where (id userObj) token
                             (utc_format (now1 - TOKEN_EXPIRY_TIME))) (loginTokens w1)
                = Some (length (loginTokens w), row)).
  { simpl. rewrite list_find_app_r by (apply list_find_None, Hdead; exact H01).
    simpl. rewrite decide_True by exact Hrow. reflexivity. }
  exists w1, (set_loginTokens (alter (lt_set_used true) (length (loginTokens w))) w1).
  split; [exact Hc|]. split.
  - apply (lookupToken_found now1 userObj token w1 _ row); [exact Hh | exact Hf1].
  - apply lookupToken_not_found; [exact Hh|].
    apply list_find_None. simpl.
    rewrite alter_app_r_alt by lia. rewrite Nat.sub_diag. simpl.
    apply Forall_app. split.
    + apply Hdead. lia.
    + apply Forall_singleton. unfold loginToken_where. simpl. intros (_ & _ & Hx & _).
      discriminate.
Qed.

Lemma createToken_lookupToken_once_witness :
  exists w1 w2,
    createToken 1000 localhost_octets alice "https://webmaker.org" empty_world
      = (Callback (inr tt), w1) /\
    lookupToken 2000 alice "basul-dabab" w1 = (Callback (inr tt), w2) /\
    lookupToken 3000 alice "basul-dabab" w2 = (Callback (inl (ErrObject "unauthorized")), w2).
Proof.
  apply (createToken_lookupToken_once 1000 2000 3000 localhost_octets alice
           "https://webmaker.org" empty_world).
  - reflexivity.
  - intros r Hin. inversion Hin.
  - lia.
  - vm_compute. discriminate.
  - lia.
Defined.

(** C2 as stated fails: alice already holds an unused row with the text
    [babab-babab], the text of the octets 0, 0, 0, 0; a token issued for
    her from the same four octets adds a second row with that text, and
    two verifications in a row both succeed. *)
Lemma createToken_lookupToken_twice_counterexample :
  let w0 := twin_token_world in
  let w1 := snd (createToken 1000 zero_octets alice "https://webmaker.org" w0) in
  let w2 := snd (lookupToken 2000 alice "babab-babab" w1) in
  fst (createToken 1000 zero_octets alice "https://webmaker.org" w0) = Callback (inr tt) /\
  map lt_token (loginTokens w1) = ["babab-babab"; "babab-babab"] /\
  fst (lookupToken 2000 alice "babab-babab" w1) = Callback (inr tt) /\
  fst (lookupToken 3000 alice "babab-babab" w2) = Callback (inr tt).
Proof. vm_compute. repeat split. Qed.

(** ** Reset codes *)

Lemma validateReset_found now code user w i r :
  failing w = [] ->
  list_find (resetCode_where code (id user) (utc_format (now - RESET_EXPIRY_TIME)))
    (resetCodes w) = Some (i, r) ->
  validateReset now code user w =
    (Callback (inr true), set_resetCodes (alter (rc_set_used true) i) w).
Proof.
  intros Hh Hf. unfold validateReset, complete, then_, resetCode_find, then_.
  rewrite (request_healthy w Hh), Hf.
  unfold resetCode_updateAttributes, then_.
  rewrite (request_healthy w Hh). reflexivity.
Qed.

Lemma validateReset_not_found now code user w :
  failing w = [] ->
  list_find (resetCode_where code (id user) (utc_format (now - RESET_EXPIRY_TIME)))
    (resetCodes w) = None ->
  validateReset now code user w = (Callback (inr false), w).
Proof.
  intros Hh Hf. unfold validateReset, complete, then_, resetCode_find, then_.
  rewrite (request_healthy w Hh), Hf. reflexivity.
Qed.

Lemma resetCode_where_active code UserId gte r :
  resetCode_where code UserId gte r <-> rc_code r = code /\ resetCode_active UserId gte r.
Proof. unfold resetCode_where, resetCode_active. tauto. Qed.

Lemma invalidateActiveResets_healthy now user w :
  failing w = [] ->
  let P := resetCode_active (id user) (utc_format (now - RESET_EXPIRY_TIME)) in
  invalidateActiveResets now user w =
    (Callback (inr (length (filter P (resetCodes w)))),
     set_resetCodes (map (fun r => if decide (P r) then rc_set_invalid true r else r)) w).
Proof.
  intros Hh P. unfold invalidateActiveResets, complete, resetCode_update, then_.
  rewrite (request_healthy w Hh). reflexivity.
Qed.

(** Once the active codes of a user were invalidated at [now], none of the
    rows then in the table is active for that user at [now] or later. *)
Lemma invalidated_stay_inactive now now' UserId (l : list ResetCode) :
  now <= now' ->
  let P := resetCode_active UserId (utc_format (now - RESET_EXPIRY_TIME)) in
  Forall (fun r => ~ resetCode_active UserId (utc_format (now' - RESET_EXPIRY_TIME)) r)
    (map (fun r => if decide (P r) then rc_set_invalid true r else r) l).
Proof.
  intros Hle P. apply Forall_fmap, Forall_forall. intros r _. simpl.
  destruct (decide (P r)) as [HP | HnP].
  - unfold resetCode_active. simpl. intros (_ & _ & Hx & _). discriminate.
  - intros (Hu & Hused & Hinv & Hage). apply HnP. unfold P, resetCode_active.
    repeat split; try assumption.
    pose proof (utc_format_mono (now - RESET_EXPIRY_TIME) (now' - RESET_EXPIRY_TIME)). lia.
Qed.

(** C3, as amended.  With a database that answers, [invalidateActiveResets]
    at [now] calls back with the number N of rows of the user that are
    unused, not invalid and created no earlier than the second that contains
    [now - 24 h]; it sets [invalid] on exactly those rows and leaves every
    other row and every other table as it was; afterwards [validateReset]
    at [now] or later answers [false] for the user, whatever the code. *)
Theorem invalidateActiveResets_spec (now : Z) (user : User) (w : World) :
  failing w = [] ->
  exists w',
    invalidateActiveResets now user w =
      (Callback (inr (length (filter (reset_live now (id user)) (resetCodes w)))), w') /\
    (forall i r, resetCodes w !! i = Some r ->
       resetCodes w' !! i =
         Some (if decide (reset_live now (id user) r) then rc_set_invalid true r else r)) /\
    length (resetCodes w') = length (resetCodes w) /\
    loginTokens w' = loginTokens w /\ passwords w' = passwords w /\
    users w' = users w /\ hatchet w' = hatchet w /\
    (forall now' code, now <= now' ->
       validateReset now' code user w' = (Callback (inr false), w')).
Proof.
  intros Hh. eexists. split; [|split; [|split; [|split; [|split; [|split; [|split]]]]]].
  - rewrite (invalidateActiveResets_healthy now user w Hh).
    rewrite (list_filter_iff _ (reset_live now (id user))); [reflexivity|].
    intros r. apply resetCode_active_live.
  - intros i r Hi. simpl. rewrite list_lookup_fmap, Hi. simpl. f_equal.
    destruct (decide (resetCode_active _ _ r)) as [H1|H1],
             (decide (reset_live now (id user) r)) as [H2|H2]; try reflexivity.
    + exfalso. apply H2, resetCode_active_live, H1.
    + exfalso. apply H1, resetCode_active_live, H2.
  - simpl. apply length_fmap.
  - reflexivity.
  - reflexivity.
  - reflexivity.
  - reflexivity.
  - intros now' code Hle. apply validateReset_not_found; [exact Hh|].
    apply list_find_None. simpl.
    eapply Forall_impl; [apply (invalidated_stay_inactive now now' (id user)); exact Hle|].
    intros r Hn Hw. apply Hn. apply resetCode_where_active in Hw. apply Hw.
Qed.

Lemma invalidateActiveResets_spec_witness :
  exists w',
    invalidateActiveResets 5000 alice stale_code_world = (Callback (inr 1%nat), w') /\
    validateReset 6000 "c0de" alice w' = (Callback (inr false), w').
Proof.
  destruct (invalidateActiveResets_spec 5000 alice stale_code_world eq_refl)
    as (w' & Hrun & _ & _ & _ & _ & _ & _ & Hval).
  exists w'. split.
  - exact Hrun.
  - apply Hval. lia.
Defined.

(** C3 as stated fails: 86 400 700 ms after the epoch, a code created at
    300 ms is 24 hours and 400 ms old, so alice holds N = 0 codes within
    the 24-hour window; the call still reports one affected row and sets
    [invalid] on that expired row. *)
Lemma invalidateActiveResets_sub_second_counterexample :
  length (filter (reset_within_ttl 86400700 (id alice)) (resetCodes stale_code_world)) = 0%nat /\
  fst (invalidateActiveResets 86400700 alice stale_code_world) = Callback (inr 1%nat) /\
  resetCodes (snd (invalidateActiveResets 86400700 alice stale_code_world))
    = [rc_set_invalid true (resetCode_build "c0de" 1 300)].
Proof. vm_compute. repeat split. Qed.

Lemma resetCode_where_live now code UserId r :
  resetCode_where code UserId (utc_format (now - RESET_EXPIRY_TIME)) r <->
  rc_code r = code /\ reset_live now UserId r.
Proof. rewrite resetCode_where_active, resetCode_active_live. reflexivity. Qed.

Lemma reset_live_earlier now now' UserId r :
  now <= now' -> reset_live now' UserId r -> reset_live now UserId r.
Proof.
  intros Hle (Hu & Hused & Hinv & Hage). repeat split; try assumption.
  pose proof (Z.div_le_mono (now - RESET_EXPIRY_TIME) (now' - RESET_EXPIRY_TIME) 1000). lia.
Qed.

Lemma resetCode_find_first now code UserId (l : list ResetCode) i r :
  list_find (resetCode_where code UserId (utc_format (now - RESET_EXPIRY_TIME))) l
    = Some (i, r) ->
  l !! i = Some r /\ (rc_code r = code /\ reset_live now UserId r) /\
  (forall j r0, (j < i)%nat -> l !! j = Some r0 ->
     ~ (rc_code r0 = code /\ reset_live now UserId r0)).
Proof.
  intros Hf. apply list_find_Some in Hf as (Hi & HP & Hmin).
  split; [exact Hi|]. split; [apply resetCode_where_live; exact HP|].
  intros j r0 Hj Hr0 Hl. apply (Hmin j r0 Hr0 Hj). apply resetCode_where_live. exact Hl.
Qed.

(** The row under key [i] after the update of [validateReset]: [used] is
    true and the other columns are as they were; no other row differs. *)
Lemma resetCode_flipped (l : list ResetCode) i r :
  l !! i = Some r ->
  (exists r', alter (rc_set_used true) i l !! i = Some r' /\
     rc_used r' = true /\ rc_UserId r' = rc_UserId r /\ rc_code r' = rc_code r /\
     rc_invalid r' = rc_invalid r /\ rc_createdAt r' = rc_createdAt r) /\
  length (alter (rc_set_used true) i l) = length l /\
  (forall j, j <> i -> alter (rc_set_used true) i l !! j = l !! j).
Proof.
  intros Hi. split; [|split].
  - exists (rc_set_used true r). rewrite list_lookup_alter_eq, Hi. repeat split.
  - apply length_alter.
  - intros j Hj. apply list_lookup_alter_ne. congruence.
Qed.

(** C4, as amended.  With a database that answers, [validateReset] calls
    back with the value [false], not with an error, and changes nothing
    when no row has the code and the user's id, is unused, is not invalid
    and was created no earlier than the second that contains
    [now - 24 h].  When such a row exists it calls back with [true], and
    the first such row, the one with the least key, has [used] true and
    its other columns as before; every other row, every other table and
    the notifications are unchanged.  If that row was the only one
    matching, a second validation at [now] or later answers [false].  A
    login token that matches no row makes [lookupToken] call back with the
    error [{ error: "unauthorized" }] instead. *)
Theorem validateReset_spec (now : Z) (code : string) (user : User) (w : World) :
  failing w = [] ->
  let live := fun r => rc_code r = code /\ reset_live now (id user) r in
  ((~ exists r, r ∈ resetCodes w /\ live r) ->
   validateReset now code user w = (Callback (inr false), w)) /\
  ((exists r, r ∈ resetCodes w /\ live r) ->
   exists i r r' w',
     resetCodes w !! i = Some r /\ live r /\
     (forall j r0, (j < i)%nat -> resetCodes w !! j = Some r0 -> ~ live r0) /\
     validateReset now code user w = (Callback (inr true), w') /\
     resetCodes w' !! i = Some r' /\
     rc_used r' = true /\ rc_UserId r' = rc_UserId r /\ rc_code r' = rc_code r /\
     rc_invalid r' = rc_invalid r /\ rc_createdAt r' = rc_createdAt r /\
     length (resetCodes w') = length (resetCodes w) /\
     (forall j, j <> i -> resetCodes w' !! j = resetCodes w !! j) /\
     loginTokens w' = loginTokens w /\ passwords w' = passwords w /\
     users w' = users w /\ hatchet w' = hatchet w /\ failing w' = failing w /\
     (forall now',
        now <= now' ->
        (forall j r0, resetCodes w !! j = Some r0 -> live r0 -> j = i) ->
        validateReset now' code user w' = (Callback (inr false), w'))) /\
  (forall token,
     (~ exists r, r ∈ loginTokens w /\ token_live now (id user) token r) ->
     lookupToken now user token w = (Callback (inl (ErrObject "unauthorized")), w)).
Proof.
  intros Hh live. split; [|split].
  - intros Hn. apply validateReset_not_found; [exact Hh|].
    apply list_find_None, Forall_forall. intros r Hin HP.
    apply Hn. exists r. split; [exact Hin|]. apply resetCode_where_live. exact HP.
  - intros (r0 & Hin0 & Hl0).
    destruct (list_find (resetCode_where code (id user) (utc_format (now - RESET_EXPIRY_TIME)))
                (resetCodes w)) as [[i r]|] eqn:Hf.
    + pose proof (validateReset_found now code user w i r Hh Hf) as Hrun.
      apply resetCode_find_first in Hf as (Hi & Hl & Hmin).
      destruct (resetCode_flipped (resetCodes w) i r Hi)
        as ((r' & Hi' & Hused & Hu & Hc & Hinv & Hat) & Hlen & Hrest).
      exists i, r, r', (set_resetCodes (alter (rc_set_used true) i) w).
      split; [exact Hi|]. split; [exact Hl|]. split; [exact Hmin|]. split; [exact Hrun|].
      split; [exact Hi'|]. split; [exact Hused|]. split; [exact Hu|]. split; [exact Hc|].
      split; [exact Hinv|]. split; [exact Hat|]. split; [exact Hlen|]. split; [exact Hrest|].
      do 5 (split; [reflexivity|]).
      intros now' Hle Huniq. apply validateReset_not_found; [exact Hh|].
      apply list_find_None, Forall_lookup. intros j r1 Hj HP'.
      destruct (decide (j = i)) as [->|Hne].
      * cbn in Hj. rewrite Hi' in Hj. apply (inj Some) in Hj. subst r1.
        destruct HP' as (_ & _ & Hx & _). congruence.
      * cbn in Hj. rewrite (Hrest j Hne) in Hj.
        apply Hne. apply (Huniq j r1 Hj).
        apply resetCode_where_live in HP'. destruct HP' as [Hc' Hl'].
        split; [exact Hc'|]. eapply reset_live_earlier; eassumption.
    + exfalso. apply list_find_None in Hf. rewrite Forall_forall in Hf.
      apply (Hf r0 Hin0). apply resetCode_where_live. exact Hl0.
  - intros token Hn. apply lookupToken_not_found; [exact Hh|].
    apply list_find_None, Forall_forall. intros r Hin HP.
    apply Hn. exists r. split; [exact Hin|]. apply loginToken_where_live. exact HP.
Qed.

Lemma validateReset_spec_witness :
  validateReset 5000 "f00d" alice two_code_world = (Callback (inr false), two_code_world) /\
  (exists w' r0 r1,
     validateReset 5000 "c0de" alice two_code_world = (Callback (inr true), w') /\
     resetCodes w' = [r0; r1] /\ rc_used r0 = true /\ rc_used r1 = false) /\
  lookupToken 5000 alice "basul-dabab" two_code_world
    = (Callback (inl (ErrObject "unauthorized")), two_code_world).
Proof.
  destruct (validateReset_spec 5000 "f00d" alice two_code_world eq_refl) as (Hnone & _ & Htok).
  destruct (validateReset_spec 5000 "c0de" alice two_code_world eq_refl) as (_ & Hok & _).
  split; [|split].
  - apply Hnone. intros (r & Hin & Hc & _).
    apply elem_of_cons in Hin as [-> | Hin]; [discriminate|].
    apply list_elem_of_singleton in Hin. subst r. discriminate.
  - destruct Hok as (i & r & r' & w' & Hi & _ & Hmin & Hrun & Hi' & Hused & _ & _ & _ & _ &
                     Hlen & Hrest & _).
    { exists (resetCode_build "c0de" 1 1000). split.
      - apply list_elem_of_here.
      - split; [reflexivity|]. unfold reset_live. cbn. repeat split. vm_compute. discriminate. }
    assert (i = 0%nat) as ->.
    { destruct i as [|i]; [reflexivity|]. exfalso.
      apply (Hmin 0%nat (resetCode_build "c0de" 1 1000)); [lia | reflexivity |].
      split; [reflexivity|]. unfold reset_live. cbn. repeat split. vm_compute. discriminate. }
    pose proof (Hrest 1%nat ltac:(lia)) as H1. cbn in H1.
    destruct (resetCodes w') as [|x0 [|x1 [|x2 rest]]] eqn:Hw'; try discriminate.
    cbn in Hi', H1. apply (inj Some) in Hi', H1. subst x0 x1.
    exists w', r', (resetCode_build "c0de" 1 1500).
    split; [exact Hrun|]. split; [exact Hw'|]. split; [exact Hused | reflexivity].
  - apply Htok. intros (r & Hin & _). inversion Hin.
Defined.

(** C4 as stated fails: 86 400 700 ms after the epoch, the code created at
    300 ms is 24 hours and 400 ms old, so no row matches within the
    24-hour window, and the validation answers [true]. *)
Lemma validateReset_sub_second_counterexample :
  (~ exists r, r ∈ resetCodes stale_code_world /\ rc_code r = "c0de" /\
               reset_within_ttl 86400700 (id alice) r) /\
  fst (validateReset 86400700 "c0de" alice stale_code_world) = Callback (inr true).
Proof.
  split.
  - intros (r & Hin & _ & Hr). apply list_elem_of_singleton in Hin. subst r.
    destruct Hr as (_ & _ & _ & Hage). vm_compute in Hage. apply Hage. reflexivity.
  - vm_compute. reflexivity.
Qed.

(** Two rows with one code: the uniqueness assumed for the second
    validation is not enforced by the module.  Two codes issued from the
    same draws are two live rows, and the same code validates twice. *)
Example validateReset_twin_codes :
  let w1 := snd (createResetCode 1000 1 zero_draws "https://webmaker.org" alice empty_world) in
  let w2 := snd (createResetCode 2000 1 zero_draws "https://webmaker.org" alice w1) in
  let code := "0000000000000000000000000000000000000000000000000000000000000000" in
  let w3 := snd (validateReset 3000 code alice w2) in
  fst (validateReset 3000 code alice w2) = Callback (inr true) /\
  fst (validateReset 4000 code alice w3) = Callback (inr true).
Proof. vm_compute. repeat split. Qed.

Lemma createResetCode_healthy now stack random WEBMAKERORG user w code :
  failing w = [] ->
  Hat.hat stack RESET_CODE_BIT_LENGTH RESET_CODE_BASE random = Some code ->
  exists q,
    createResetCode now stack random WEBMAKERORG user w =
      (Callback (inr tt),
       set_hatchet (fun _ => q)
         (set_resetCodes (fun t => (t ++ [resetCode_build code (id user) now])%list) w)).
Proof.
  intros Hh Hc. eexists. unfold createResetCode. rewrite Hc.
  unfold complete, error_, then_, resetCode_save, then_.
  rewrite (request_healthy w Hh). cbn. reflexivity.
Qed.

(** C5, as amended.  [createResetCode] alone invalidates nothing.  When
    [invalidateActiveResets] is run for the user between the issue of a
    first code [c1] and the issue of a different code [c2], then, from the
    time of the invalidation on, validating [c1] answers [false],
    validating [c2] within 24 hours of its issue answers [true], and
    validating [c2] once more answers [false]. *)
Theorem createResetCode_supersedes (t0 t1 t2 t3 t4 t5 : Z) (stack : nat)
  (random1 random2 : nat -> Z) (WEBMAKERORG : string) (user : User) (w : World)
  (c1 c2 : string) :
  failing w = [] ->
  Hat.hat stack RESET_CODE_BIT_LENGTH RESET_CODE_BASE random1 = Some c1 ->
  Hat.hat stack RESET_CODE_BIT_LENGTH RESET_CODE_BASE random2 = Some c2 ->
  c1 <> c2 ->
  t1 <= t3 -> t3 <= t4 -> t4 <= t5 -> t4 - t2 <= RESET_EXPIRY_TIME ->
  exists wa n wb wc wd,
    createResetCode t0 stack random1 WEBMAKERORG user w = (Callback (inr tt), wa) /\
    invalidateActiveResets t1 user wa = (Callback (inr n), wb) /\
    createResetCode t2 stack random2 WEBMAKERORG user wb = (Callback (inr tt), wc) /\
    validateReset t3 c1 user wc = (Callback (inr false), wc) /\
    validateReset t4 c2 user wc = (Callback (inr true), wd) /\
    validateReset t5 c2 user wd = (Callback (inr false), wd).
Proof.
  intros Hh H1 H2 Hne H13 H34 H45 Httl.
  destruct (createResetCode_healthy t0 stack random1 WEBMAKERORG user w c1 Hh H1) as [qa Ha].
  set (wa := set_hatchet (fun _ => qa) _) in Ha.
  assert (Hha : failing wa = []) by exact Hh.
  pose proof (invalidateActiveResets_healthy t1 user wa Hha) as Hb. cbv zeta in Hb.
  set (P := resetCode_active (id user) (utc_format (t1 - RESET_EXPIRY_TIME))) in Hb.
  set (inv := fun r => if decide (P r) then rc_set_invalid true r else r) in Hb.
  set (wb := set_resetCodes (map inv) wa) in Hb.
  assert (Hhb : failing wb = []) by exact Hh.
  destruct (createResetCode_healthy t2 stack random2 WEBMAKERORG user wb c2 Hhb H2) as [qc Hc].
  set (row2 := resetCode_build c2 (id user) t2) in Hc.
  set (wc := set_hatchet (fun _ => qc) _) in Hc.
  assert (Hhc : failing wc = []) by exact Hh.
  assert (Hcodes : resetCodes wc = (map inv (resetCodes wa) ++ [row2])%list) by reflexivity.
  assert (Hdead : forall t code, t1 <= t ->
            Forall (fun r => ~ resetCode_where code (id user)
                                 (utc_format (t - RESET_EXPIRY_TIME)) r)
              (map inv (resetCodes wa))).
  { intros t code Ht.
    eapply Forall_impl; [apply (invalidated_stay_inactive t1 t (id user)); exact Ht|].
    intros r Hn Hw. apply Hn. apply resetCode_where_active in Hw. apply Hw. }
  assert (Hrow2 : resetCode_where c2 (id user) (utc_format (t4 - RESET_EXPIRY_TIME)) row2).
  { unfold resetCode_where, row2. simpl. repeat split.
    apply (utc_format_window t4 RESET_EXPIRY_TIME t2). exact Httl. }
  exists wa, (length (filter P (resetCodes wa))), wb, wc,
    (set_resetCodes (alter (rc_set_used true) (length (map inv (resetCodes wa)))) wc).
  split; [exact Ha|]. split; [exact Hb|]. split; [exact Hc|]. split; [|split].
  - apply validateReset_not_found; [exact Hhc|].
    apply list_find_None. rewrite Hcodes. apply Forall_app. split.
    + apply Hdead. exact H13.
    + apply Forall_singleton. unfold resetCode_where, row2. simpl.
      intros (Hx & _). apply Hne. symmetry. exact Hx.
  - apply (validateReset_found t4 c2 user wc _ row2); [exact Hhc|].
    rewrite Hcodes. rewrite list_find_app_r by (apply list_find_None, Hdead; lia).
    simpl. rewrite decide_True by exact Hrow2. reflexivity.
  - apply validateReset_not_found; [exact Hhc|].
    apply list_find_None. simpl resetCodes. fold inv.
    change (resetCodes wb) with (map inv (resetCodes wa)).
    rewrite alter_app_r_alt by lia. rewrite Nat.sub_diag. simpl.
    apply Forall_app. split.
    + apply Hdead. lia.
    + apply Forall_singleton. unfold resetCode_where. simpl.
      intros (_ & _ & Hx & _). discriminate.
Qed.

Lemma createResetCode_supersedes_witness :
  let c1 := "0000000000000000000000000000000000000000000000000000000000000000" in
  let c2 := "fedcba9876543210fedcba9876543210fedcba9876543210fedcba9876543210" in
  exists wa n wb wc wd,
    createResetCode 0 1 zero_draws "https://webmaker.org" alice empty_world
      = (Callback (inr tt), wa) /\
    invalidateActiveResets 3600000 alice wa = (Callback (inr n), wb) /\
    createResetCode 3600000 1 count_draws "https://webmaker.org" alice wb
      = (Callback (inr tt), wc) /\
    validateReset 3700000 c1 alice wc = (Callback (inr false), wc) /\
    validateReset 3800000 c2 alice wc = (Callback (inr true), wd) /\
    validateReset 3900000 c2 alice wd = (Callback (inr false), wd).
Proof.
  intros c1 c2.
  apply (createResetCode_supersedes 0 3600000 3600000 3700000 3800000 3900000 1
           zero_draws count_draws "https://webmaker.org" alice empty_world c1 c2).
  - reflexivity.
  - vm_compute. reflexivity.
  - vm_compute. reflexivity.
  - discriminate.
  - lia.
  - lia.
  - lia.
  - vm_compute. discriminate.
Defined.

(** C5 as stated fails: a first code issued at time 0 and a second one an
    hour later, with nothing in between; the first code still validates. *)
Lemma createResetCode_keeps_older_code_counterexample :
  let c1 := "0000000000000000000000000000000000000000000000000000000000000000" in
  let w1 := snd (createResetCode 0 1 zero_draws "https://webmaker.org" alice empty_world) in
  let w2 := snd (createResetCode 3600000 1 count_draws "https://webmaker.org" alice w1) in
  fst (createResetCode 0 1 zero_draws "https://webmaker.org" alice empty_world)
    = Callback (inr tt) /\
  fst (createResetCode 3600000 1 count_draws "https://webmaker.org" alice w1)
    = Callback (inr tt) /\
  map rc_code (resetCodes w2)
    = [c1; "fedcba9876543210fedcba9876543210fedcba9876543210fedcba9876543210"] /\
  fst (validateReset 3600001 c1 alice w2) = Callback (inr true).
Proof. vm_compute. repeat split. Qed.

(** ** Interleaved verifications *)

(** Run alone, the two callbacks of a verification are the exported
    function. *)
Lemma lookupToken_two_steps now userObj token w :
  exists r w',
    lookupToken now userObj token w = (Callback r, w') /\
    (let (s1, w1) := lookupToken_step now userObj token Finding w in
     lookupToken_step now userObj token s1 w1) = (Finished r, w').
Proof.
  unfold lookupToken, lookupToken_step, complete, then_, loginToken_find, then_.
  destruct (request w) as [[e|[]] w1]; [eauto|].
  destruct (list_find _ (loginTokens w1)) as [[i r]|]; [|eauto].
  destruct (loginToken_updateAttributes i true w1) as [r' w2]. eauto.
Qed.

Lemma validateReset_two_steps now code user w :
  exists r w',
    validateReset now code user w = (Callback r, w') /\
    (let (s1, w1) := validateReset_step now code user Finding w in
     validateReset_step now code user s1 w1) = (Finished r, w').
Proof.
  unfold validateReset, validateReset_step, complete, then_, resetCode_find, then_.
  destruct (request w) as [[e|[]] w1]; [eauto|].
  destruct (list_find _ (resetCodes w1)) as [[i r]|]; [|eauto].
  destruct (resetCode_updateAttributes i true w1) as [[e|[]] w2]; eauto.
Qed.

Lemma lookupToken_step_find now userObj token w i r :
  failing w = [] ->
  list_find (loginToken_where (id userObj) token (utc_format (now - TOKEN_EXPIRY_TIME)))
    (loginTokens w) = Some (i, r) ->
  lookupToken_step now userObj token Finding w = (Flipping i, w).
Proof.
  intros Hh Hf. unfold lookupToken_step, loginToken_find, then_.
  rewrite (request_healthy w Hh), Hf. reflexivity.
Qed.

Lemma lookupToken_step_flip now userObj token w i :
  failing w = [] ->
  lookupToken_step now userObj token (Flipping i) w =
    (Finished (inr tt), set_loginTokens (alter (lt_set_used true) i) w).
Proof.
  intros Hh. unfold lookupToken_step, loginToken_updateAttributes, then_.
  rewrite (request_healthy w Hh). reflexivity.
Qed.

Lemma validateReset_step_find now code user w i r :
  failing w = [] ->
  list_find (resetCode_where code (id user) (utc_format (now - RESET_EXPIRY_TIME)))
    (resetCodes w) = Some (i, r) ->
  validateReset_step now code user Finding w = (Flipping i, w).
Proof.
  intros Hh Hf. unfold validateReset_step, resetCode_find, then_.
  rewrite (request_healthy w Hh), Hf. reflexivity.
Qed.

Lemma validateReset_step_flip now code user w i :
  failing w = [] ->
  validateReset_step now code user (Flipping i) w =
    (Finished (inr true), set_resetCodes (alter (rc_set_used true) i) w).
Proof.
  intros Hh. unfold validateReset_step, resetCode_updateAttributes, then_.
  rewrite (request_healthy w Hh). reflexivity.
Qed.

(** C6 fails on the code.  The lookup and the flip are two requests, and
    the update is keyed by the primary key alone: when both verifications
    of one valid token read the row before either writes it, both call
    back with success; likewise both validations of one reset code answer
    [true]. *)
Theorem interleaved_verifications_both_succeed :
  (forall now_a now_b userObj token w,
     failing w = [] ->
     (exists r, r ∈ loginTokens w /\ token_live now_a (id userObj) token r) ->
     (exists r, r ∈ loginTokens w /\ token_live now_b (id userObj) token r) ->
     exists w',
       interleave (lookupToken_step now_a userObj token) (lookupToken_step now_b userObj token)
         find_find_flip_flip Finding Finding w
       = (Finished (inr tt), Finished (inr tt), w')) /\
  (forall now_a now_b code user w,
     failing w = [] ->
     (exists r, r ∈ resetCodes w /\ rc_code r = code /\ reset_live now_a (id user) r) ->
     (exists r, r ∈ resetCodes w /\ rc_code r = code /\ reset_live now_b (id user) r) ->
     exists w',
       interleave (validateReset_step now_a code user) (validateReset_step now_b code user)
         find_find_flip_flip Finding Finding w
       = (Finished (inr true), Finished (inr true), w')).
Proof.
  split.
  - intros now_a now_b userObj token w Hh (ra & Hina & Hla) (rb & Hinb & Hlb).
    apply loginToken_where_live in Hla, Hlb.
    destruct (list_find_elem_of _ _ _ Hina Hla) as [[ia ra'] Hfa].
    destruct (list_find_elem_of _ _ _ Hinb Hlb) as [[ib rb'] Hfb].
    eexists. unfold find_find_flip_flip. cbn [interleave].
    rewrite (lookupToken_step_find now_a userObj token w ia ra' Hh Hfa).
    rewrite (lookupToken_step_find now_b userObj token w ib rb' Hh Hfb).
    rewrite (lookupToken_step_flip now_a userObj token w ia Hh).
    rewrite lookupToken_step_flip by exact Hh. reflexivity.
  - intros now_a now_b code user w Hh (ra & Hina & Hla) (rb & Hinb & Hlb).
    apply resetCode_where_live in Hla, Hlb.
    destruct (list_find_elem_of _ _ _ Hina Hla) as [[ia ra'] Hfa].
    destruct (list_find_elem_of _ _ _ Hinb Hlb) as [[ib rb'] Hfb].
    eexists. unfold find_find_flip_flip. cbn [interleave].
    rewrite (validateReset_step_find now_a code user w ia ra' Hh Hfa).
    rewrite (validateReset_step_find now_b code user w ib rb' Hh Hfb).
    rewrite (validateReset_step_flip now_a code user w ia Hh).
    rewrite validateReset_step_flip by exact Hh. reflexivity.
Qed.

Lemma interleaved_verifications_both_succeed_witness :
  (exists w',
     interleave (lookupToken_step 2000 alice "lusab-babad")
       (lookupToken_step 2001 alice "lusab-babad")
       find_find_flip_flip Finding Finding fresh_world
     = (Finished (inr tt), Finished (inr tt), w')) /\
  (exists w',
     interleave (validateReset_step 2000 "c0de" alice) (validateReset_step 2001 "c0de" alice)
       find_find_flip_flip Finding Finding fresh_world
     = (Finished (inr true), Finished (inr true), w')).
Proof.
  destruct interleaved_verifications_both_succeed as [Htok Hcode]. split.
  - apply Htok; [reflexivity | |];
      (exists (loginToken_build "lusab-babad" 1 1000); split;
       [apply list_elem_of_singleton; reflexivity
       | unfold token_live; simpl; repeat split; vm_compute; discriminate]).
  - apply Hcode; [reflexivity | |];
      (exists (resetCode_build "c0de" 1 1000); split;
       [apply list_elem_of_singleton; reflexivity
       | unfold reset_live; simpl; repeat split; vm_compute; discriminate]).
Defined.

(** ** Passwords *)

Lemma then_fulfilled {A B} (p : Promise A) (f : A -> Promise B) w a w' :
  p w = (inr a, w') -> then_ p f w = f a w'.
Proof. intros H. unfold then_. rewrite H. reflexivity. Qed.

Lemma then_rejected {A B} (p : Promise A) (f : A -> Promise B) w e w' :
  p w = (inl e, w') -> then_ p f w = (inl e, w').
Proof. intros H. unfold then_. rewrite H. reflexivity. Qed.

Lemma settled_run {A} (p : Promise A) w r w' : p w = (r, w') -> settled p w = (Some r, w').
Proof. intros H. unfold settled. rewrite H. reflexivity. Qed.

Lemma unheard_fulfilled {A} (p : Promise A) w a w' :
  p w = (inr a, w') -> unheard p w = (Some (inr a), w').
Proof. intros H. unfold unheard. rewrite H. reflexivity. Qed.

Lemma unheard_rejected {A} (p : Promise A) w e w' :
  p w = (inl e, w') -> unheard p w = (None, w').
Proof. intros H. unfold unheard. rewrite H. reflexivity. Qed.

Lemma chain_then_fulfilled {A B} (c : Chain A) (f : A -> Chain B) w a w' :
  c w = (Some (inr a), w') -> chain_then c f w = f a w'.
Proof. intros H. unfold chain_then. rewrite H. reflexivity. Qed.

Lemma chain_then_rejected {A B} (c : Chain A) (f : A -> Chain B) w e w' :
  c w = (Some (inl e), w') -> chain_then c f w = (Some (inl e), w').
Proof. intros H. unfold chain_then. rewrite H. reflexivity. Qed.

Lemma chain_then_unsettled {A B} (c : Chain A) (f : A -> Chain B) w w' :
  c w = (None, w') -> chain_then c f w = (None, w').
Proof. intros H. unfold chain_then. rewrite H. reflexivity. Qed.

Lemma request_answered (w : World) rest :
  failing w = false :: rest -> request w = (inr tt, set_failing (fun _ => rest) w).
Proof. intros H. unfold request. rewrite H. reflexivity. Qed.

Lemma user_setPassword_healthy user pass w :
  failing w = [] ->
  user_setPassword user pass w = (Some (inr tt), set_passwords (relink (id user) pass) w).
Proof.
  intros Hh. unfold user_setPassword.
  erewrite chain_then_fulfilled
    by (apply unheard_fulfilled; erewrite then_fulfilled by (apply request_healthy; exact Hh);
        reflexivity).
  assert (Hsave : forall w1, failing w1 = [] ->
            settled (password_save (id user) pass) w1
            = (Some (inr tt),
               set_passwords
                 (fun t => match pi_id pass with
                           | None => (t ++ [Some {| pw_UserId := Some (id user);
                                                    pw_saltedHash := pi_saltedHash pass |}])%list
                           | Some k => alter (fun o => match o with
                                                       | Some _ =>
                                                           Some {| pw_UserId := Some (id user);
                                                                   pw_saltedHash :=
                                                                     pi_saltedHash pass |}
                                                       | None => None
                                                       end) k t
                           end) w1)).
  { intros w1 Hh1. apply settled_run. unfold password_save.
    erewrite then_fulfilled by (apply request_healthy; exact Hh1).
    destruct (pi_id pass); reflexivity. }
  destruct (list_find (password_of (id user)) (passwords w)) as [[k o]|] eqn:Hf.
  - erewrite chain_then_fulfilled
      by (apply unheard_fulfilled; erewrite then_fulfilled by (apply request_healthy; exact Hh);
          reflexivity).
    rewrite Hsave by exact Hh. unfold set_passwords, relink. cbn. rewrite Hf.
    destruct (pi_id pass); reflexivity.
  - erewrite chain_then_fulfilled by reflexivity.
    rewrite Hsave by exact Hh. unfold set_passwords, relink. cbn. rewrite Hf.
    destruct (pi_id pass); reflexivity.
Qed.

Lemma user_updateAttributes_healthy user b w :
  failing w = [] ->
  user_updateAttributes user b w =
    (inr tt, set_users (alter (u_set_usePasswordLogin b) (id user)) w).
Proof.
  intros Hh. unfold user_updateAttributes.
  rewrite (then_fulfilled _ _ w tt w (request_healthy w Hh)). reflexivity.
Qed.

Lemma user_updateAttributes_answered user b w rest :
  failing w = false :: rest ->
  user_updateAttributes user b w =
    (inr tt, set_users (alter (u_set_usePasswordLogin b) (id user))
               (set_failing (fun _ => rest) w)).
Proof.
  intros Hf. unfold user_updateAttributes.
  rewrite (then_fulfilled _ _ w tt _ (request_answered w rest Hf)). reflexivity.
Qed.

Lemma user_updateAttributes_rejected user b w rest :
  failing w = true :: rest ->
  user_updateAttributes user b w = (inl ErrStore, set_failing (fun _ => rest) w).
Proof.
  intros Hf. unfold user_updateAttributes.
  apply then_rejected, request_rejected. exact Hf.
Qed.

(** The row of a user after [updateAttributes]: the flag has the value
    written and the other columns are as they were; no other row
    differs. *)
Lemma user_flag_written (l : list UserRow) (b : bool) i row :
  l !! i = Some row ->
  exists row',
    alter (u_set_usePasswordLogin b) i l !! i = Some row' /\
    u_usePasswordLogin row' = b /\ u_username row' = u_username row /\
    u_email row' = u_email row /\ u_verified row' = u_verified row.
Proof.
  intros Hi. exists (u_set_usePasswordLogin b row).
  rewrite list_lookup_alter_eq, Hi. repeat split.
Qed.

Lemma changePassword_healthy bcrypt newPass user w :
  failing w = [] ->
  let pass := match password user with Some p => p | None => password_build end in
  let hash := match bcrypt_genSalt bcrypt BCRYPT_ROUNDS with
              | Some s => bcrypt_hash bcrypt newPass s
              | None => None
              end in
  changePassword bcrypt newPass user w =
    (Callback (inr tt),
     set_hatchet (fun q => (q ++ [password_changed_event user])%list)
       (set_passwords (relink (id user) (pi_set_saltedHash hash pass))
          (set_users (alter (u_set_usePasswordLogin true) (id user)) w))).
Proof.
  intros Hh pass hash.
  unfold changePassword, chain_complete, chain_error.
  erewrite chain_then_fulfilled
    by (apply settled_run, user_updateAttributes_healthy; exact Hh).
  erewrite chain_then_fulfilled by (apply user_setPassword_healthy; exact Hh).
  reflexivity.
Qed.

Lemma error_generic {A} (p : Promise A) (generic : JsError) w e w' :
  error_ p (fun _ => reject generic) w = (inl e, w') -> e = generic.
Proof.
  unfold error_, reject. destruct (p w) as [[e0|a] w1]; intros H; inversion H; reflexivity.
Qed.

Lemma filter_find_None {A} (P : A -> Prop) `{!forall x, Decision (P x)} (l : list A) :
  list_find P l = None -> filter P l = [].
Proof.
  intros Hnone. apply list_find_None in Hnone.
  induction Hnone as [|x l Hx _ IH]; [reflexivity|].
  rewrite filter_cons_False by exact Hx. exact IH.
Qed.

(** Rewriting the first matching row into one that does not match leaves
    no match, when there was at most one. *)
Lemma filter_alter_first {A} (P : A -> Prop) `{!forall x, Decision (P x)} (f : A -> A)
  (l : list A) k o :
  (length (filter P l) <= 1)%nat ->
  list_find P l = Some (k, o) ->
  ~ P (f o) ->
  filter P (alter f k l) = [].
Proof.
  revert k. induction l as [|a l IH]; intros k Hlen Hf Hn; [discriminate|].
  cbn in Hf. destruct (decide (P a)) as [Ha|Ha].
  - inversion Hf. subst k o. change (alter f 0%nat (a :: l)) with (f a :: l).
    rewrite filter_cons_False by exact Hn.
    rewrite filter_cons_True in Hlen by exact Ha. cbn in Hlen.
    destruct (filter P l); [reflexivity | cbn in Hlen; lia].
  - destruct (list_find P l) as [[k' o']|] eqn:Hl; [|discriminate].
    cbn in Hf. inversion Hf. subst k o.
    change (alter f (S k') (a :: l)) with (a :: alter f k' l).
    rewrite filter_cons_False by exact Ha.
    rewrite filter_cons_False in Hlen by exact Ha.
    apply (IH k' Hlen eq_refl Hn).
Qed.

(** Rewriting one row into a matching one, when nothing matched. *)
Lemma filter_alter_into {A} (P : A -> Prop) `{!forall x, Decision (P x)} (f : A -> A)
  (l : list A) k x :
  filter P l = [] -> l !! k = Some x -> P (f x) -> filter P (alter f k l) = [f x].
Proof.
  revert k. induction l as [|a l IH]; intros k Hnil Hk HP; [discriminate|].
  destruct (decide (P a)) as [Ha|Ha].
  - rewrite filter_cons_True in Hnil by exact Ha. discriminate.
  - rewrite filter_cons_False in Hnil by exact Ha. destruct k as [|k].
    + inversion Hk. subst a. change (alter f 0%nat (x :: l)) with (f x :: l).
      rewrite filter_cons_True by exact HP. rewrite Hnil. reflexivity.
    + change (alter f (S k) (a :: l)) with (a :: alter f k l).
      rewrite filter_cons_False by exact Ha. apply IH; assumption.
Qed.

Lemma pw_unlink_not_linked UserId o : ~ password_of UserId (pw_unlink o).
Proof.
  intros (r & E & H). destruct o as [r0|]; [|discriminate].
  inversion E. subst r. discriminate.
Qed.

Lemma relink_one UserId pass (t : list (option Password)) :
  (length (filter (password_of UserId) t) <= 1)%nat ->
  (forall k, pi_id pass = Some k -> exists r, t !! k = Some (Some r)) ->
  length (filter (password_of UserId) (relink UserId pass t)) = 1%nat.
Proof.
  intros Hone Hsync. unfold relink.
  set (t1 := match list_find (password_of UserId) t with
             | Some (k, _) => alter pw_unlink k t
             | None => t
             end).
  set (row := {| pw_UserId := Some UserId; pw_saltedHash := pi_saltedHash pass |}).
  assert (Hrow : password_of UserId (Some row)) by (exists row; split; reflexivity).
  assert (Hnil : filter (password_of UserId) t1 = []).
  { unfold t1. destruct (list_find (password_of UserId) t) as [[k o]|] eqn:Hf.
    - eapply filter_alter_first; [exact Hone | exact Hf | apply pw_unlink_not_linked].
    - apply filter_find_None. exact Hf. }
  destruct (pi_id pass) as [k|] eqn:Hp.
  - destruct (Hsync k eq_refl) as [r Hk].
    assert (Hk1 : exists r1, t1 !! k = Some (Some r1)).
    { unfold t1. destruct (list_find (password_of UserId) t) as [[k' o]|]; [|eauto].
      destruct (decide (k' = k)) as [->|Hne].
      - rewrite list_lookup_alter_eq, Hk. cbn. eauto.
      - rewrite list_lookup_alter_ne by exact Hne. eauto. }
    destruct Hk1 as [r1 Hk1].
    erewrite filter_alter_into; [reflexivity | exact Hnil | exact Hk1 | exact Hrow].
  - rewrite filter_app, Hnil, app_nil_l.
    rewrite filter_cons_True by exact Hrow. reflexivity.
Qed.

(** C7 fails on the code.  When bcrypt reports an error, for the salt or
    for the hash, [changePassword] goes on: it writes the user's flag,
    saves a password row without a hash, notifies, and calls back without
    any error. *)
Theorem changePassword_ignores_bcrypt_error (bcrypt : Bcrypt) (newPass : string)
  (user : User) (w : World) :
  failing w = [] ->
  (bcrypt_genSalt bcrypt BCRYPT_ROUNDS = None \/
   exists s, bcrypt_genSalt bcrypt BCRYPT_ROUNDS = Some s /\ bcrypt_hash bcrypt newPass s = None) ->
  exists w',
    changePassword bcrypt newPass user w = (Callback (inr tt), w') /\
    users w' = alter (u_set_usePasswordLogin true) (id user) (users w) /\
    (password user = None ->
     exists t, passwords w' =
                 (t ++ [Some {| pw_UserId := Some (id user); pw_saltedHash := None |}])%list) /\
    (forall p k r, password user = Some p -> pi_id p = Some k ->
       passwords w !! k = Some (Some r) ->
       passwords w' !! k = Some (Some {| pw_UserId := Some (id user); pw_saltedHash := None |})) /\
    hatchet w' = (hatchet w ++ [password_changed_event user])%list.
Proof.
  intros Hh Herr.
  pose proof (changePassword_healthy bcrypt newPass user w Hh) as Hrun. cbv zeta in Hrun.
  assert (Hhash : match bcrypt_genSalt bcrypt BCRYPT_ROUNDS with
                  | Some s => bcrypt_hash bcrypt newPass s
                  | None => None
                  end = None).
  { destruct Herr as [-> | (s & -> & ->)]; reflexivity. }
  rewrite Hhash in Hrun. eexists. split; [exact Hrun|].
  split; [reflexivity|]. split; [|split; [|reflexivity]].
  - intros Hp. rewrite Hp. cbn. unfold relink. cbn. eexists. reflexivity.
  - intros p k r Hp Hid Hk. rewrite Hp. cbn. unfold relink. cbn. rewrite Hid.
    rewrite list_lookup_alter_eq.
    destruct (list_find (password_of (id user)) (passwords w)) as [[k' o]|].
    + destruct (decide (k' = k)) as [->|Hne].
      * rewrite list_lookup_alter_eq, Hk. reflexivity.
      * rewrite list_lookup_alter_ne, Hk by exact Hne. reflexivity.
    + rewrite Hk. reflexivity.
Qed.

Lemma changePassword_ignores_bcrypt_error_witness :
  exists w',
    changePassword bcrypt_broken "hunter2" alice users_world = (Callback (inr tt), w') /\
    passwords w' = [Some {| pw_UserId := Some 1%nat; pw_saltedHash := None |}] /\
    users w' = [alice_row; u_set_usePasswordLogin true alice_row].
Proof.
  destruct (changePassword_ignores_bcrypt_error bcrypt_broken "hunter2" alice users_world
              eq_refl (or_intror (ex_intro _ "salt" (conj eq_refl eq_refl))))
    as (w' & Hrun & Hu & _).
  exists w'. split; [exact Hrun|].
  vm_compute in Hrun. inversion Hrun. split; reflexivity.
Defined.

Lemma relink_length_reuse UserId pass k (t : list (option Password)) :
  pi_id pass = Some k -> length (relink UserId pass t) = length t.
Proof.
  intros Hp. unfold relink. rewrite Hp, length_alter.
  destruct (list_find (password_of UserId) t) as [[k' o]|]; [apply length_alter | reflexivity].
Qed.

Lemma relink_length_create UserId pass (t : list (option Password)) :
  pi_id pass = None -> length (relink UserId pass t) = S (length t).
Proof.
  intros Hp. unfold relink. rewrite Hp, length_app. cbn.
  destruct (list_find (password_of UserId) t) as [[k' o]|];
    [rewrite length_alter|]; lia.
Qed.

Lemma chain_error_generic {A} (c : Chain A) (generic : JsError) w e w' :
  chain_error c (fun _ => settled (reject generic)) w = (Some (inl e), w') -> e = generic.
Proof.
  unfold chain_error, settled, reject.
  destruct (c w) as [[[e0|a]|] w1]; intros H; inversion H; reflexivity.
Qed.

Lemma filter_find_Some {A} (P : A -> Prop) `{!forall x, Decision (P x)} (l : list A) k x :
  list_find P l = Some (k, x) -> (1 <= length (filter P l))%nat.
Proof.
  intros Hf. apply list_find_Some in Hf as (Hk & HP & _).
  assert (Hin : x ∈ filter P l).
  { apply list_elem_of_filter. split; [exact HP | eapply list_elem_of_lookup_2; exact Hk]. }
  destruct (filter P l); [inversion Hin | cbn; lia].
Qed.

(** The requests of [changePassword] before the final save: the update of
    the flag, the fetch of the linked row and, when there is one, the save
    that unlinks it.  When they are answered and the final save fails, the
    callback receives the generic error and nothing is sent. *)
Lemma changePassword_save_fails bcrypt newPass user w rest :
  (credentials (id user) w <= 1)%nat ->
  failing w = (replicate (2 + credentials (id user) w) false ++ true :: rest)%list ->
  exists w',
    changePassword bcrypt newPass user w
      = (Callback (inl (ErrObject "Login Database Error")), w') /\
    hatchet w' = hatchet w /\ failing w' = rest.
Proof.
  intros Hone Hs. unfold credentials in Hone, Hs.
  destruct (list_find (password_of (id user)) (passwords w)) as [[k o]|] eqn:Hf.
  - pose proof (filter_find_Some _ _ _ _ Hf) as Hge.
    replace (length (filter (password_of (id user)) (passwords w))) with 1%nat in Hs by lia.
    cbn in Hs. eexists.
    unfold changePassword, chain_complete, chain_error, user_setPassword, chain_then, settled,
      unheard, user_updateAttributes, password_save, then_, request.
    rewrite Hs. cbn. rewrite Hf. cbn. repeat split.
  - rewrite (filter_find_None _ _ Hf) in Hs. cbn in Hs. eexists.
    unfold changePassword, chain_complete, chain_error, user_setPassword, chain_then, settled,
      unheard, user_updateAttributes, password_save, then_, request.
    rewrite Hs. cbn. rewrite Hf. cbn. repeat split.
Qed.

(** C8, as amended.  For a user with at most one password row, whose
    loaded password instance (if any) is a row of the table: with a
    database that answers, [changePassword] calls back without error and
    leaves exactly one row linked to the user, the row of the loaded
    instance when there is one (no row is added) and a new row otherwise;
    the user's [usePasswordLogin] is true, the other columns of the user's
    row and every other user row are as before; and the event
    [user-password-changed] is sent with the fields [email] and [username]
    and no other.  Whatever the database does, the only error the callback
    can receive is [{ error: "Login Database Error" }]; it does receive it
    when the first request, the update of the flag, fails (nothing is then
    written or sent), and when the final save of the password row fails
    (nothing is then sent). *)
Theorem changePassword_spec (bcrypt : Bcrypt) (newPass : string) (user : User) (w : World) :
  (credentials (id user) w <= 1)%nat ->
  (forall p k, password user = Some p -> pi_id p = Some k ->
     exists r, passwords w !! k = Some (Some r)) ->
  (failing w = [] ->
   exists w',
     changePassword bcrypt newPass user w = (Callback (inr tt), w') /\
     credentials (id user) w' = 1%nat /\
     (forall p k, password user = Some p -> pi_id p = Some k ->
        length (passwords w') = length (passwords w) /\
        exists r, passwords w' !! k = Some (Some r) /\ pw_UserId r = Some (id user)) /\
     (password user = None -> length (passwords w') = S (length (passwords w))) /\
     (forall row, users w !! id user = Some row ->
        exists row', users w' !! id user = Some row' /\
          u_usePasswordLogin row' = true /\ u_username row' = u_username row /\
          u_email row' = u_email row /\ u_verified row' = u_verified row) /\
     length (users w') = length (users w) /\
     (forall j, j <> id user -> users w' !! j = users w !! j) /\
     hatchet w' =
       (hatchet w ++ [("user-password-changed",
                       [("email", JsString (email user));
                        ("username", JsString (username user))])])%list) /\
  (forall e, fst (changePassword bcrypt newPass user w) = Callback (inl e) ->
     e = ErrObject "Login Database Error") /\
  (forall rest, failing w = true :: rest ->
     changePassword bcrypt newPass user w =
       (Callback (inl (ErrObject "Login Database Error")), set_failing (fun _ => rest) w)) /\
  (forall rest,
     failing w = (replicate (2 + credentials (id user) w) false ++ true :: rest)%list ->
     fst (changePassword bcrypt newPass user w)
       = Callback (inl (ErrObject "Login Database Error")) /\
     hatchet (snd (changePassword bcrypt newPass user w)) = hatchet w).
Proof.
  intros Hone Hsync. split; [|split; [|split]].
  - intros Hh.
    pose proof (changePassword_healthy bcrypt newPass user w Hh) as Hrun. cbv zeta in Hrun.
    set (pass := pi_set_saltedHash _ _) in Hrun.
    assert (Hsync' : forall k, pi_id pass = Some k -> exists r, passwords w !! k = Some (Some r)).
    { intros k Hk. unfold pass in Hk. cbn in Hk.
      destruct (password user) as [p|] eqn:Hp; [|discriminate].
      exact (Hsync p k eq_refl Hk). }
    eexists. split; [exact Hrun|].
    split; [|split; [|split; [|split; [|split; [|split]]]]].
    + unfold credentials. cbn. apply relink_one; [exact Hone | exact Hsync'].
    + intros p k Hp Hk. cbn.
      assert (Hk' : pi_id pass = Some k) by (unfold pass; rewrite Hp; exact Hk).
      split; [apply (relink_length_reuse _ _ k); exact Hk'|].
      destruct (Hsync' k Hk') as [r Hr]. unfold relink. rewrite Hk'.
      rewrite list_lookup_alter_eq.
      destruct (list_find (password_of (id user)) (passwords w)) as [[k' o]|].
      * destruct (decide (k' = k)) as [->|Hne].
        -- rewrite list_lookup_alter_eq, Hr. cbn. eauto.
        -- rewrite list_lookup_alter_ne, Hr by exact Hne. cbn. eauto.
      * rewrite Hr. cbn. eauto.
    + intros Hp. cbn. apply relink_length_create. unfold pass. rewrite Hp. reflexivity.
    + intros row Hrow. cbn. apply user_flag_written. exact Hrow.
    + cbn. apply length_alter.
    + intros j Hj. cbn. apply list_lookup_alter_ne. congruence.
    + reflexivity.
  - intros e He. unfold changePassword, chain_complete in He.
    destruct (chain_error _ _ w) as [[r|] w'] eqn:Hrun; cbn in He; [|discriminate].
    inversion He. subst r. eapply chain_error_generic. exact Hrun.
  - intros rest Hf. unfold changePassword, chain_complete, chain_error.
    erewrite chain_then_rejected
      by (apply settled_run, user_updateAttributes_rejected; exact Hf).
    reflexivity.
  - intros rest Hs.
    destruct (changePassword_save_fails bcrypt newPass user w rest Hone Hs)
      as (w' & Hrun & Hq & _).
    rewrite Hrun. split; [reflexivity | exact Hq].
Qed.

Lemma changePassword_spec_witness :
  exists w',
    changePassword bcrypt_toy "hunter2" alice_with_password password_world
      = (Callback (inr tt), w') /\
    credentials 1 w' = 1%nat /\
    (exists row', users w' !! 1%nat = Some row' /\ u_usePasswordLogin row' = true) /\
    passwords w' = [Some {| pw_UserId := Some 1%nat; pw_saltedHash := Some "salt$hunter2" |}].
Proof.
  assert (Hone : (credentials (id alice_with_password) password_world <= 1)%nat)
    by (vm_compute; lia).
  assert (Hsync : forall p k, password alice_with_password = Some p -> pi_id p = Some k ->
                    exists r, passwords password_world !! k = Some (Some r)).
  { intros p k Hp Hk. inversion Hp. subst p. inversion Hk. subst k. eexists. reflexivity. }
  destruct (changePassword_spec bcrypt_toy "hunter2" alice_with_password password_world
              Hone Hsync) as (Hok & _ & _).
  destruct (Hok eq_refl) as (w' & Hrun & Hcount & _ & _ & Hflag & _).
  destruct (Hflag alice_row eq_refl) as (row' & Hrow' & Htrue & _).
  exists w'. split; [exact Hrun|]. split; [exact Hcount|].
  split; [exists row'; split; [exact Hrow' | exact Htrue]|].
  vm_compute in Hrun. inversion Hrun. reflexivity.
Defined.

(** C8 as stated fails for a user whose loaded password instance is no
    longer a row of the table: here alice, loaded with password row 0,
    after [removePassword] destroyed that row.  [changePassword] saves the
    instance into nothing and calls back without error, and alice is left
    without any password row. *)
Example changePassword_after_removePassword :
  let w1 := snd (removePassword alice_with_password password_world) in
  let w2 := snd (changePassword bcrypt_toy "hunter2" alice_with_password w1) in
  fst (removePassword alice_with_password password_world) = Callback (inr tt) /\
  fst (changePassword bcrypt_toy "hunter2" alice_with_password w1) = Callback (inr tt) /\
  credentials 1 w2 = 0%nat.
Proof. vm_compute. repeat split. Qed.

(** C10.  A user without a loaded password instance makes [removePassword]
    raise a [TypeError] before anything is requested or any callback is
    registered, and so does [compare]; with an instance, [removePassword]
    always reaches its callback, with no error or with
    [{ error: "Error removing password" }], and [compare] reaches its
    callback. *)
Theorem removePassword_requires_password (bcrypt : Bcrypt) (pass : string) (user : User)
  (w : World) :
  (password user = None ->
   removePassword user w = (Throws TypeError, w) /\
   compare bcrypt pass user w = (Throws TypeError, w)) /\
  (forall p, password user = Some p ->
   (exists r w', removePassword user w = (Callback r, w') /\
                 (r = inr tt \/ r = inl (ErrObject "Error removing password"))) /\
   (exists r, compare bcrypt pass user w = (Callback r, w))).
Proof.
  split.
  - intros Hp. unfold removePassword, compare. rewrite Hp. split; reflexivity.
  - intros p Hp. unfold removePassword, compare. rewrite Hp. split.
    + unfold complete. destruct (error_ _ _ w) as [[e|[]] w'] eqn:Hrun.
      * apply error_generic in Hrun. subst e. eauto.
      * eauto.
    + eauto.
Qed.

Lemma removePassword_requires_password_witness :
  removePassword alice users_world = (Throws TypeError, users_world) /\
  compare bcrypt_toy "hunter2" alice users_world = (Throws TypeError, users_world).
Proof.
  apply (removePassword_requires_password bcrypt_toy "hunter2" alice users_world).
  reflexivity.
Defined.

(** ** Generated tokens and codes *)


Lemma crypto_randomBytes_octets entropy n :
  Forall (fun b => 0 <= b < 256) (crypto_randomBytes entropy n).
Proof.
  unfold crypto_randomBytes. apply Forall_fmap, Forall_forall. intros i _. simpl.
  apply Z.mod_pos_bound. lia.
Qed.

Lemma quints_round_trip_sound (count : nat) (n m : Z) :
  quints_round_trip count n = true ->
  n <= m < n + Z.of_nat count ->
  quint_value (proquint.encode16 m) = Some m.
Proof.
  revert n. induction count as [|count IH]; intros n Hall Hm; [lia|].
  cbn [quints_round_trip] in Hall. apply andb_prop in Hall as [Hn Hrest].
  destruct (decide (m = n)) as [->|Hne].
  - apply bool_decide_eq_true in Hn. exact Hn.
  - apply (IH (n + 1)); [exact Hrest | lia].
Qed.

Lemma quints_round_trip_all : quints_round_trip (Z.to_nat 65536) 0 = true.
Proof. vm_compute. reflexivity. Qed.

(** Every 16-bit word is read back from its five letters. *)
Lemma quint_value_encode16 (n : Z) :
  0 <= n < 65536 -> quint_value (proquint.encode16 n) = Some n.
Proof.
  intros Hn. apply (quints_round_trip_sound (Z.to_nat 65536) 0 n quints_round_trip_all).
  rewrite Z2Nat.id; lia.
Qed.

Lemma login_token_bytes_encode (b0 b1 b2 b3 : Z) :
  0 <= b0 < 256 -> 0 <= b1 < 256 -> 0 <= b2 < 256 -> 0 <= b3 < 256 ->
  login_token_bytes (proquint.encode [b0; b1; b2; b3]) = Some [b0; b1; b2; b3].
Proof.
  intros H0 H1 H2 H3. unfold login_token_bytes, proquint.encode.
  change (proquint.words [b0; b1; b2; b3]) with [b0 * 256 + b1; b2 * 256 + b3].
  change (String.concat "-" (map proquint.encode16 [b0 * 256 + b1; b2 * 256 + b3]))
    with (proquint.encode16 (b0 * 256 + b1) ++ "-" ++ proquint.encode16 (b2 * 256 + b3)).
  change (String.substring 0 5
            (proquint.encode16 (b0 * 256 + b1) ++ "-" ++ proquint.encode16 (b2 * 256 + b3)))
    with (proquint.encode16 (b0 * 256 + b1)).
  change (String.substring 6 5
            (proquint.encode16 (b0 * 256 + b1) ++ "-" ++ proquint.encode16 (b2 * 256 + b3)))
    with (proquint.encode16 (b2 * 256 + b3)).
  rewrite !quint_value_encode16 by lia.
  change (String.length _ =? 11)%nat with true.
  change (String.get 5 _) with (Some "-"%char).
  cbn [andb]. rewrite bool_decide_eq_true_2 by reflexivity.
  f_equal.
  rewrite (Z.div_add_l b0 256 b1), (Z.div_small b1 256) by lia.
  rewrite (Z.div_add_l b2 256 b3), (Z.div_small b3 256) by lia.
  rewrite (Z.add_comm (b0 * 256)), Z.mod_add, (Z.mod_small b1) by lia.
  rewrite (Z.add_comm (b2 * 256)), Z.mod_add, (Z.mod_small b3) by lia.
  rewrite !Z.add_0_r. reflexivity.
Qed.















(** ** What no sequence of calls undoes *)

Lemma token_kept_refl r : token_kept r r.
Proof. repeat split; auto. Qed.

Lemma code_kept_refl r : code_kept r r.
Proof. repeat split; auto. Qed.

Lemma user_kept_refl r : user_kept r r.
Proof. repeat split; auto. Qed.

Lemma token_kept_trans r1 r2 r3 : token_kept r1 r2 -> token_kept r2 r3 -> token_kept r1 r3.
Proof.
  intros (A1 & A2 & A3 & A4) (B1 & B2 & B3 & B4).
  repeat split; try congruence. auto.
Qed.

Lemma code_kept_trans r1 r2 r3 : code_kept r1 r2 -> code_kept r2 r3 -> code_kept r1 r3.
Proof.
  intros (A1 & A2 & A3 & A4 & A5) (B1 & B2 & B3 & B4 & B5).
  repeat split; try congruence; auto.
Qed.

Lemma user_kept_trans r1 r2 r3 : user_kept r1 r2 -> user_kept r2 r3 -> user_kept r1 r3.
Proof. intros (A1 & A2 & A3) (B1 & B2 & B3). repeat split; congruence. Qed.

Ltac row_kept :=
  let r := fresh "r" in
  intros ? r ?; exists r; split;
  [assumption | first [apply token_kept_refl | apply code_kept_refl | apply user_kept_refl]].

Lemma evolves_refl w : evolves w w.
Proof. unfold evolves. repeat split; try row_kept; reflexivity. Qed.

Lemma evolves_trans w1 w2 w3 : evolves w1 w2 -> evolves w2 w3 -> evolves w1 w3.
Proof.
  intros (T1 & C1 & U1 & L1 & P1 & H1) (T2 & C2 & U2 & L2 & P2 & H2).
  unfold evolves. repeat split.
  - intros i r Hr. destruct (T1 i r Hr) as (r2 & Hr2 & K1).
    destruct (T2 i r2 Hr2) as (r3 & Hr3 & K2). exists r3.
    split; [exact Hr3 | eapply token_kept_trans; eassumption].
  - intros i r Hr. destruct (C1 i r Hr) as (r2 & Hr2 & K1).
    destruct (C2 i r2 Hr2) as (r3 & Hr3 & K2). exists r3.
    split; [exact Hr3 | eapply code_kept_trans; eassumption].
  - intros i r Hr. destruct (U1 i r Hr) as (r2 & Hr2 & K1).
    destruct (U2 i r2 Hr2) as (r3 & Hr3 & K2). exists r3.
    split; [exact Hr3 | eapply user_kept_trans; eassumption].
  - congruence.
  - lia.
  - etransitivity; eassumption.
Qed.

Lemma same_tables_evolves w w' : same_tables w w' -> evolves w w'.
Proof.
  intros (HT & HC & HP & HU & HH). unfold evolves.
  rewrite HT, HC, HP, HU, HH. apply evolves_refl.
Qed.

Lemma evolves_loginTokens w f :
  (forall i r, loginTokens w !! i = Some r ->
     exists r', f (loginTokens w) !! i = Some r' /\ token_kept r r') ->
  evolves w (set_loginTokens f w).
Proof. intros H. unfold evolves. cbn. repeat split; try row_kept; auto. Qed.

Lemma evolves_resetCodes w f :
  (forall i r, resetCodes w !! i = Some r ->
     exists r', f (resetCodes w) !! i = Some r' /\ code_kept r r') ->
  evolves w (set_resetCodes f w).
Proof. intros H. unfold evolves. cbn. repeat split; try row_kept; auto. Qed.

Lemma evolves_users w b i :
  evolves w (set_users (alter (u_set_usePasswordLogin b) i) w).
Proof.
  unfold evolves. cbn. repeat split; try row_kept; auto.
  - intros j r Hr. destruct (decide (i = j)) as [->|Hne].
    + exists (u_set_usePasswordLogin b r).
      rewrite list_lookup_alter_eq, Hr. split; [reflexivity | repeat split].
    + exists r. rewrite list_lookup_alter_ne by exact Hne.
      split; [exact Hr | apply user_kept_refl].
  - apply length_alter.
Qed.

Lemma evolves_passwords w f :
  (length (passwords w) <= length (f (passwords w)))%nat ->
  evolves w (set_passwords f w).
Proof. intros H. unfold evolves. cbn. repeat split; try row_kept; auto. Qed.

Lemma evolves_hatchet w e :
  evolves w (set_hatchet (fun q => (q ++ [e])%list) w).
Proof.
  unfold evolves. cbn. repeat split; try row_kept; auto.
  apply prefix_app_r. reflexivity.
Qed.

Lemma steady_resolve {A} (a : A) : steady (resolve a).
Proof. intros w. apply evolves_refl. Qed.

Lemma steady_reject {A} (e : JsError) : steady (@reject A e).
Proof. intros w. apply evolves_refl. Qed.

Lemma request_same_tables w : same_tables w (snd (request w)).
Proof. unfold request. destruct (failing w) as [|[] rest]; repeat split. Qed.

Lemma steady_request : steady request.
Proof. intros w. apply same_tables_evolves, request_same_tables. Qed.

Lemma steady_then {A B} (p : Promise A) (f : A -> Promise B) :
  steady p -> (forall a, steady (f a)) -> steady (then_ p f).
Proof.
  intros Hp Hf w. unfold then_. specialize (Hp w).
  destruct (p w) as [[e|a] w1]; [exact Hp|].
  eapply evolves_trans; [exact Hp | apply Hf].
Qed.

Lemma steady_error_ {A} (p : Promise A) (h : JsError -> Promise A) :
  steady p -> (forall e, steady (h e)) -> steady (error_ p h).
Proof.
  intros Hp Hh w. unfold error_. specialize (Hp w).
  destruct (p w) as [[e|a] w1]; [|exact Hp].
  eapply evolves_trans; [exact Hp | apply Hh].
Qed.

Lemma steady_hatchet_send name payload : steady (hatchet_send name payload).
Proof. intros w. apply evolves_hatchet. Qed.

Lemma lt_set_used_kept r : token_kept r (lt_set_used true r).
Proof. repeat split. Qed.

Lemma steady_loginToken_save r : steady (loginToken_save r).
Proof.
  apply steady_then; [apply steady_request|]. intros _ w.
  apply evolves_loginTokens. intros i r0 Hr. exists r0.
  split; [apply lookup_app_l_Some; exact Hr | apply token_kept_refl].
Qed.

Lemma steady_loginToken_find P `{!forall r, Decision (P r)} : steady (loginToken_find P).
Proof. apply steady_then; [apply steady_request|]. intros _ w. apply evolves_refl. Qed.

Lemma steady_loginToken_updateAttributes i : steady (loginToken_updateAttributes i true).
Proof.
  apply steady_then; [apply steady_request|]. intros _ w.
  apply evolves_loginTokens. intros j r Hr. destruct (decide (i = j)) as [->|Hne].
  - exists (lt_set_used true r). rewrite list_lookup_alter_eq, Hr.
    split; [reflexivity | apply lt_set_used_kept].
  - exists r. rewrite list_lookup_alter_ne by exact Hne.
    split; [exact Hr | apply token_kept_refl].
Qed.

Lemma steady_resetCode_save r : steady (resetCode_save r).
Proof.
  apply steady_then; [apply steady_request|]. intros _ w.
  apply evolves_resetCodes. intros i r0 Hr. exists r0.
  split; [apply lookup_app_l_Some; exact Hr | apply code_kept_refl].
Qed.

Lemma steady_resetCode_find P `{!forall r, Decision (P r)} : steady (resetCode_find P).
Proof. apply steady_then; [apply steady_request|]. intros _ w. apply evolves_refl. Qed.

Lemma steady_resetCode_updateAttributes i : steady (resetCode_updateAttributes i true).
Proof.
  apply steady_then; [apply steady_request|]. intros _ w.
  apply evolves_resetCodes. intros j r Hr. destruct (decide (i = j)) as [->|Hne].
  - exists (rc_set_used true r). rewrite list_lookup_alter_eq, Hr.
    split; [reflexivity | repeat split; auto].
  - exists r. rewrite list_lookup_alter_ne by exact Hne.
    split; [exact Hr | apply code_kept_refl].
Qed.

Lemma steady_resetCode_update P `{!forall r, Decision (P r)} : steady (resetCode_update true P).
Proof.
  apply steady_then; [apply steady_request|]. intros _ w.
  apply evolves_resetCodes. intros i r Hr.
  exists (if decide (P r) then rc_set_invalid true r else r).
  rewrite list_lookup_fmap, Hr. split; [reflexivity|].
  destruct (decide (P r)); [repeat split; auto | apply code_kept_refl].
Qed.

Lemma steady_user_updateAttributes user b : steady (user_updateAttributes user b).
Proof. apply steady_then; [apply steady_request|]. intros _ w. apply evolves_users. Qed.

Lemma steady_password_save UserId pass : steady (password_save UserId pass).
Proof.
  apply steady_then; [apply steady_request|]. intros _ w.
  destruct (pi_id pass) as [k|]; cbn; apply evolves_passwords.
  - rewrite length_alter. lia.
  - rewrite length_app. lia.
Qed.

Lemma steady_settled {A} (p : Promise A) : steady p -> steady_chain (settled p).
Proof. intros Hp w. unfold settled. specialize (Hp w). destruct (p w). exact Hp. Qed.

Lemma steady_unheard {A} (p : Promise A) : steady p -> steady_chain (unheard p).
Proof.
  intros Hp w. unfold unheard. specialize (Hp w). destruct (p w) as [[e|a] w1]; exact Hp.
Qed.

Lemma steady_chain_then {A B} (c : Chain A) (f : A -> Chain B) :
  steady_chain c -> (forall a, steady_chain (f a)) -> steady_chain (chain_then c f).
Proof.
  intros Hc Hf w. unfold chain_then. specialize (Hc w).
  destruct (c w) as [[[e|a]|] w1]; try exact Hc.
  eapply evolves_trans; [exact Hc | apply Hf].
Qed.

Lemma steady_chain_error {A} (c : Chain A) (h : JsError -> Chain A) :
  steady_chain c -> (forall e, steady_chain (h e)) -> steady_chain (chain_error c h).
Proof.
  intros Hc Hh w. unfold chain_error. specialize (Hc w).
  destruct (c w) as [[[e|a]|] w1]; try exact Hc.
  eapply evolves_trans; [exact Hc | apply Hh].
Qed.

Lemma steady_user_setPassword user pass : steady_chain (user_setPassword user pass).
Proof.
  unfold user_setPassword. apply steady_chain_then.
  - apply steady_unheard, steady_then; [apply steady_request|]. intros _ w. apply evolves_refl.
  - intros old. apply steady_chain_then;
      [|intros _; apply steady_settled, steady_password_save].
    destruct old as [[k o]|]; [|apply steady_settled, steady_resolve].
    apply steady_unheard, steady_then; [apply steady_request|]. intros _ w.
    apply evolves_passwords. rewrite length_alter. lia.
Qed.

Lemma steady_password_destroy pass : steady (password_destroy pass).
Proof.
  apply steady_then; [apply steady_request|]. intros _ w.
  destruct (pi_id pass) as [k|]; cbn; [|apply evolves_refl].
  apply evolves_passwords. rewrite length_alter. lia.
Qed.

Lemma complete_snd {A} (p : Promise A) w : snd (complete p w) = snd (p w).
Proof. unfold complete. destruct (p w). reflexivity. Qed.

Lemma chain_complete_snd {A} (c : Chain A) w : snd (chain_complete c w) = snd (c w).
Proof. unfold chain_complete. destruct (c w) as [[r|] w']; reflexivity. Qed.

Lemma world_after_evolves c w : evolves w (world_after c w).
Proof.
  destruct c; cbn [world_after].
  - unfold createToken. rewrite complete_snd.
    apply steady_then; [apply steady_loginToken_save|]. intros saved.
    apply steady_then; [apply steady_hatchet_send | intros _; apply steady_resolve].
  - unfold lookupToken. rewrite complete_snd.
    apply steady_then; [apply steady_loginToken_find|]. intros [[i r]|];
      [apply steady_loginToken_updateAttributes | apply steady_reject].
  - unfold invalidateActiveResets. rewrite complete_snd. apply steady_resetCode_update.
  - unfold createResetCode. destruct (Hat.hat _ _ _ _) as [code|]; [|apply evolves_refl].
    rewrite complete_snd. apply steady_error_; [|intros e; apply steady_reject].
    apply steady_then; [apply steady_resetCode_save|]. intros saved.
    apply steady_then; [apply steady_hatchet_send | intros _; apply steady_resolve].
  - unfold validateReset. rewrite complete_snd.
    apply steady_then; [apply steady_resetCode_find|]. intros [[i r]|];
      [|apply steady_resolve].
    apply steady_then; [apply steady_resetCode_updateAttributes|].
    intros _. apply steady_resolve.
  - unfold changePassword. rewrite chain_complete_snd.
    apply steady_chain_error; [|intros e; apply steady_settled, steady_reject].
    apply steady_chain_then; [apply steady_settled, steady_user_updateAttributes|]. intros _.
    apply steady_chain_then; [apply steady_user_setPassword|]. intros _.
    apply steady_settled.
    apply steady_then; [apply steady_hatchet_send | intros _; apply steady_resolve].
  - unfold removePassword. destruct (password user) as [p|]; [|apply evolves_refl].
    rewrite complete_snd. apply steady_error_; [|intros e; apply steady_reject].
    apply steady_then; [apply steady_password_destroy|]. intros _.
    apply steady_then; [apply steady_user_updateAttributes | intros _; apply steady_resolve].
  - unfold compare. destruct (password user) as [p|]; apply evolves_refl.
Qed.

Lemma world_after_all_evolves (calls : list Call) (w : World) :
  evolves w (world_after_all calls w).
Proof.
  unfold world_after_all. revert w.
  induction calls as [|c calls IH]; intros w; [apply evolves_refl|].
  cbn [foldl]. eapply evolves_trans; [apply world_after_evolves | apply IH].
Qed.

(** X1.  Whatever calls are made, with whatever arguments, clock
    readings and database failures: every login token, reset code and user
    row stays under its key with the same owner, text and creation time; a
    used token or code is never unused again and an invalidated code never
    valid again; password keys are never reused; and no notification is
    withdrawn.  So a token row that is used, and a code row that is used
    or invalid, is never again matched by a verification, at any time, for
    any user. *)
Theorem calls_never_undo (calls : list Call) (w : World) :
  evolves w (world_after_all calls w) /\
  (forall i r, loginTokens w !! i = Some r -> lt_used r = true ->
     exists r', loginTokens (world_after_all calls w) !! i = Some r' /\
                forall UserId token gte, ~ loginToken_where UserId token gte r') /\
  (forall i r, resetCodes w !! i = Some r -> rc_used r = true \/ rc_invalid r = true ->
     exists r', resetCodes (world_after_all calls w) !! i = Some r' /\
                forall code UserId gte, ~ resetCode_where code UserId gte r').
Proof.
  pose proof (world_after_all_evolves calls w) as He.
  split; [exact He|]. destruct He as (HT & HC & _). split.
  - intros i r Hr Hused. destruct (HT i r Hr) as (r' & Hr' & _ & _ & _ & Hk).
    exists r'. split; [exact Hr'|]. intros UserId token gte (_ & _ & Hx & _).
    rewrite (Hk Hused) in Hx. discriminate.
  - intros i r Hr Hdead. destruct (HC i r Hr) as (r' & Hr' & _ & _ & _ & Hu & Hi).
    exists r'. split; [exact Hr'|]. intros code UserId gte (_ & _ & Hx & Hy & _).
    destruct Hdead as [Hd|Hd]; [rewrite (Hu Hd) in Hx | rewrite (Hi Hd) in Hy]; discriminate.
Qed.

(** ** Verifications under any database script *)

Lemma lookupToken_cases now userObj token w :
  let P := loginToken_where (id userObj) token (utc_format (now - TOKEN_EXPIRY_TIME)) in
  exists o w',
    lookupToken now userObj token w = (o, w') /\
    resetCodes w' = resetCodes w /\ passwords w' = passwords w /\
    users w' = users w /\ hatchet w' = hatchet w /\
    ((exists e, o = Callback (inl e)) /\ loginTokens w' = loginTokens w \/
     o = Callback (inr tt) /\
     exists i r, list_find P (loginTokens w) = Some (i, r) /\
                 loginTokens w' = alter (lt_set_used true) i (loginTokens w)).
Proof.
  intros P. unfold lookupToken, complete, then_ at 1, loginToken_find, then_ at 1, request.
  destruct (failing w) as [|[] rest] eqn:E.
  - fold P. destruct (list_find P (loginTokens w)) as [[i r]|] eqn:Hf.
    + unfold loginToken_updateAttributes, then_, request. rewrite E. cbn.
      do 2 eexists. split; [reflexivity|]. repeat split. right. split; [reflexivity|].
      eauto.
    + cbn. do 2 eexists. split; [reflexivity|]. repeat split. left. eauto.
  - cbn. do 2 eexists. split; [reflexivity|]. repeat split. left. eauto.
  - cbn [loginTokens set_failing]. fold P.
    destruct (list_find P (loginTokens w)) as [[i r]|] eqn:Hf.
    + unfold loginToken_updateAttributes, then_, request. cbn [failing set_failing].
      destruct rest as [|[] rest']; cbn;
        do 2 eexists; (split; [reflexivity|]); repeat split;
        first [ right; split; [reflexivity|]; exists i, r; split; reflexivity
              | left; split; [eexists|]; reflexivity ].
    + cbn. do 2 eexists. split; [reflexivity|]. repeat split. left. eauto.
Qed.

Lemma validateReset_cases now code user w :
  let P := resetCode_where code (id user) (utc_format (now - RESET_EXPIRY_TIME)) in
  exists o w',
    validateReset now code user w = (o, w') /\
    loginTokens w' = loginTokens w /\ passwords w' = passwords w /\
    users w' = users w /\ hatchet w' = hatchet w /\
    ((exists e, o = Callback (inl e)) /\ resetCodes w' = resetCodes w \/
     o = Callback (inr false) /\ list_find P (resetCodes w) = None /\
     resetCodes w' = resetCodes w \/
     o = Callback (inr true) /\
     exists i r, list_find P (resetCodes w) = Some (i, r) /\
                 resetCodes w' = alter (rc_set_used true) i (resetCodes w)).
Proof.
  intros P. unfold validateReset, complete, then_ at 1, resetCode_find, then_ at 1, request.
  destruct (failing w) as [|[] rest] eqn:E.
  - fold P. destruct (list_find P (resetCodes w)) as [[i r]|] eqn:Hf.
    + unfold then_, resetCode_updateAttributes, then_, request. rewrite E. cbn.
      do 2 eexists. split; [reflexivity|]. repeat split. right. right.
      split; [reflexivity|]. eauto.
    + cbn. do 2 eexists. split; [reflexivity|]. repeat split. right. left. eauto.
  - cbn. do 2 eexists. split; [reflexivity|]. repeat split. left. eauto.
  - cbn [resetCodes set_failing]. fold P.
    destruct (list_find P (resetCodes w)) as [[i r]|] eqn:Hf.
    + unfold then_, resetCode_updateAttributes, then_, request. cbn [failing set_failing].
      destruct rest as [|[] rest']; cbn;
        do 2 eexists; (split; [reflexivity|]); repeat split;
        first [ right; right; split; [reflexivity|]; exists i, r; split; reflexivity
              | left; split; [eexists|]; reflexivity ].
    + cbn. do 2 eexists. split; [reflexivity|]. repeat split. right. left. eauto.
Qed.

(** X2.  Under any database script, [lookupToken] touches nothing but
    login tokens and sends nothing; it always reaches its callback; unless
    the callback reports success no token row changes (a failed update
    does not burn the token); and when it reports success exactly one row
    changed: the first row of that user with that text that was unused and
    inside the window.  Its [used] is now true, its other columns are as
    before. *)
Theorem lookupToken_consumes_iff_success (now : Z) (userObj : User) (token : string)
  (w : World) :
  let o := fst (lookupToken now userObj token w) in
  let w' := snd (lookupToken now userObj token w) in
  resetCodes w' = resetCodes w /\ passwords w' = passwords w /\
  users w' = users w /\ hatchet w' = hatchet w /\
  (exists res, o = Callback res) /\
  (o <> Callback (inr tt) -> loginTokens w' = loginTokens w) /\
  (o = Callback (inr tt) ->
   exists i r r',
     loginTokens w !! i = Some r /\ token_live now (id userObj) token r /\
     (forall j r0, (j < i)%nat -> loginTokens w !! j = Some r0 ->
        ~ token_live now (id userObj) token r0) /\
     loginTokens w' !! i = Some r' /\
     lt_used r' = true /\ lt_UserId r' = lt_UserId r /\ lt_token r' = lt_token r /\
     lt_createdAt r' = lt_createdAt r /\
     length (loginTokens w') = length (loginTokens w) /\
     forall j, j <> i -> loginTokens w' !! j = loginTokens w !! j).
Proof.
  destruct (lookupToken_cases now userObj token w)
    as (o & w' & Hrun & HC & HP & HU & HH & Hcase).
  rewrite Hrun. cbn [fst snd]. repeat split; try assumption.
  - destruct Hcase as [[[e ->] _] | [-> _]]; eauto.
  - intros Hno. destruct Hcase as [[_ HT] | [-> _]]; [exact HT | contradiction].
  - intros ->. destruct Hcase as [[[e He] _] | [_ (i & r & Hf & HT)]]; [discriminate|].
    apply loginToken_find_first in Hf as (Hi & Hl & Hmin).
    destruct (loginToken_flipped (loginTokens w) i r Hi)
      as ((r' & Hi' & Hused & Hu & Ht & Hc) & Hlen & Hrest).
    exists i, r, r'. rewrite HT. repeat split; try assumption; apply Hl.
Qed.

Lemma lookupToken_consumes_iff_success_witness :
  (exists r',
     loginTokens (snd (lookupToken 2000 alice "lusab-babad" fresh_world)) = [r'] /\
     lt_used r' = true) /\
  loginTokens (snd (lookupToken 2000 alice "lusab-babad"
                      (set_failing (fun _ => [false; true]) fresh_world)))
    = loginTokens fresh_world.
Proof.
  split.
  - pose proof (lookupToken_consumes_iff_success 2000 alice "lusab-babad" fresh_world) as H.
    cbv zeta in H. destruct H as (_ & _ & _ & _ & _ & _ & Hok).
    destruct (Hok eq_refl) as (i & r & r' & Hi & _ & _ & Hi' & Hused & _ & _ & _ & Hlen & _).
    destruct i as [|i]; [|discriminate].
    destruct (loginTokens (snd (lookupToken 2000 alice "lusab-babad" fresh_world)))
      as [|x [|y l]] eqn:E; try discriminate.
    cbn in Hi'. apply (inj Some) in Hi'. subst x.
    exists r'. split; [reflexivity | exact Hused].
  - apply (lookupToken_consumes_iff_success 2000 alice "lusab-babad"
             (set_failing (fun _ => [false; true]) fresh_world)).
    vm_compute. discriminate.
Defined.

(** X3.  Under any database script, [validateReset] touches nothing but
    reset codes and sends nothing; it always reaches its callback; unless
    it answers [true] no code row changes; and when it answers [true]
    exactly one row changed: the first row of that user with that code
    that was unused, not invalid and inside the window.  Its [used] is now
    true, its other columns are as before. *)
Theorem validateReset_consumes_iff_true (now : Z) (code : string) (user : User) (w : World) :
  let o := fst (validateReset now code user w) in
  let w' := snd (validateReset now code user w) in
  loginTokens w' = loginTokens w /\ passwords w' = passwords w /\
  users w' = users w /\ hatchet w' = hatchet w /\
  (exists res, o = Callback res) /\
  (o <> Callback (inr true) -> resetCodes w' = resetCodes w) /\
  (o = Callback (inr true) ->
   exists i r r',
     resetCodes w !! i = Some r /\ rc_code r = code /\ reset_live now (id user) r /\
     (forall j r0, (j < i)%nat -> resetCodes w !! j = Some r0 ->
        ~ (rc_code r0 = code /\ reset_live now (id user) r0)) /\
     resetCodes w' !! i = Some r' /\
     rc_used r' = true /\ rc_UserId r' = rc_UserId r /\ rc_code r' = rc_code r /\
     rc_invalid r' = rc_invalid r /\ rc_createdAt r' = rc_createdAt r /\
     length (resetCodes w') = length (resetCodes w) /\
     forall j, j <> i -> resetCodes w' !! j = resetCodes w !! j).
Proof.
  destruct (validateReset_cases now code user w)
    as (o & w' & Hrun & HT & HP & HU & HH & Hcase).
  rewrite Hrun. cbn [fst snd]. repeat split; try assumption.
  - destruct Hcase as [[[e ->] _] | [[-> _] | [-> _]]]; eauto.
  - intros Hno. destruct Hcase as [[_ HC] | [[_ [_ HC]] | [-> _]]];
      [exact HC | exact HC | contradiction].
  - intros ->.
    destruct Hcase as [[[e He] _] | [[He _] | [_ (i & r & Hf & HC)]]]; try discriminate.
    apply resetCode_find_first in Hf as (Hi & [Hcode Hlive] & Hmin).
    destruct (resetCode_flipped (resetCodes w) i r Hi)
      as ((r' & Hi' & Hused & Hu & Hc & Hinv & Hat) & Hlen & Hrest).
    exists i, r, r'. rewrite HC. repeat split; try assumption; apply Hlive.
Qed.

Lemma validateReset_consumes_iff_true_witness :
  (exists r',
     resetCodes (snd (validateReset 2000 "c0de" alice fresh_world)) = [r'] /\
     rc_used r' = true) /\
  resetCodes (snd (validateReset 2000 "f00d" alice fresh_world)) = resetCodes fresh_world /\
  resetCodes (snd (validateReset 2000 "c0de" alice
                     (set_failing (fun _ => [false; true]) fresh_world)))
    = resetCodes fresh_world.
Proof.
  split; [|split].
  - pose proof (validateReset_consumes_iff_true 2000 "c0de" alice fresh_world) as H.
    cbv zeta in H. destruct H as (_ & _ & _ & _ & _ & _ & Hok).
    destruct (Hok eq_refl)
      as (i & r & r' & Hi & _ & _ & _ & Hi' & Hused & _ & _ & _ & _ & Hlen & _).
    destruct i as [|i]; [|discriminate].
    destruct (resetCodes (snd (validateReset 2000 "c0de" alice fresh_world)))
      as [|x [|y l]] eqn:E; try discriminate.
    cbn in Hi'. apply (inj Some) in Hi'. subst x.
    exists r'. split; [reflexivity | exact Hused].
  - apply (validateReset_consumes_iff_true 2000 "f00d" alice fresh_world).
    vm_compute. discriminate.
  - apply (validateReset_consumes_iff_true 2000 "c0de" alice
             (set_failing (fun _ => [false; true]) fresh_world)).
    vm_compute. discriminate.
Defined.

(** X4.  Expiry of login tokens, in milliseconds.  When every unused row
    of the user with that text is at least 30 minutes and one second old,
    [lookupToken] never reports success and changes no table, whatever the
    database does; when the database answers and some unused row of the
    user with that text is at most 30 minutes old, it reports success. *)
Theorem lookupToken_expiry (now : Z) (userObj : User) (token : string) (w : World) :
  ((forall r, r ∈ loginTokens w -> lt_UserId r = id userObj -> lt_token r = token ->
              lt_used r = false -> TOKEN_EXPIRY_TIME + 1000 <= now - lt_createdAt r) ->
   fst (lookupToken now userObj token w) <> Callback (inr tt) /\
   same_tables w (snd (lookupToken now userObj token w))) /\
  (failing w = [] ->
   (exists r, r ∈ loginTokens w /\ token_within_ttl now (id userObj) token r) ->
   fst (lookupToken now userObj token w) = Callback (inr tt)).
Proof.
  split.
  - intros Hold.
    destruct (lookupToken_cases now userObj token w)
      as (o & w' & Hrun & HC & HP & HU & HH & Hcase).
    rewrite Hrun. cbn [fst snd].
    destruct Hcase as [[[e ->] HT] | [_ (i & r & Hf & _)]].
    + split; [discriminate | repeat split; assumption].
    + exfalso. apply list_find_Some in Hf as (Hi & (Hu & Ht & Hused & Hage) & _).
      apply list_elem_of_lookup_2 in Hi.
      pose proof (Hold r Hi Hu Ht Hused).
      apply (utc_format_window now TOKEN_EXPIRY_TIME (lt_createdAt r)) in Hage. lia.
  - intros Hh (r & Hin & Hu & Ht & Hused & Hage).
    assert (HP : loginToken_where (id userObj) token (utc_format (now - TOKEN_EXPIRY_TIME)) r).
    { repeat split; try assumption.
      apply (utc_format_window now TOKEN_EXPIRY_TIME (lt_createdAt r)). exact Hage. }
    destruct (list_find_elem_of _ _ _ Hin HP) as [[i r'] Hf].
    rewrite (lookupToken_found now userObj token w i r' Hh Hf). reflexivity.
Qed.

Lemma lookupToken_expiry_witness :
  fst (lookupToken 1801300 alice "lusab-babad" stale_token_world) <> Callback (inr tt) /\
  fst (lookupToken 1800300 alice "lusab-babad" stale_token_world) = Callback (inr tt).
Proof.
  split.
  - apply (lookupToken_expiry 1801300 alice "lusab-babad" stale_token_world).
    intros r Hin _ _ _. apply list_elem_of_singleton in Hin. subst r. vm_compute. discriminate.
  - apply (lookupToken_expiry 1800300 alice "lusab-babad" stale_token_world);
      [reflexivity|].
    exists (loginToken_build "lusab-babad" 1 300). split.
    + apply list_elem_of_singleton. reflexivity.
    + unfold token_within_ttl. cbn. repeat split. vm_compute. discriminate.
Defined.

(** X5.  Expiry of reset codes, in milliseconds.  When every unused, valid
    row of the user with that code is at least 24 hours and one second
    old, [validateReset] never answers [true] and changes no table,
    whatever the database does; when the database answers and some unused,
    valid row of the user with that code is at most 24 hours old, it
    answers [true]. *)
Theorem validateReset_expiry (now : Z) (code : string) (user : User) (w : World) :
  ((forall r, r ∈ resetCodes w -> rc_code r = code -> rc_UserId r = id user ->
              rc_used r = false -> rc_invalid r = false ->
              RESET_EXPIRY_TIME + 1000 <= now - rc_createdAt r) ->
   fst (validateReset now code user w) <> Callback (inr true) /\
   same_tables w (snd (validateReset now code user w))) /\
  (failing w = [] ->
   (exists r, r ∈ resetCodes w /\ rc_code r = code /\ reset_within_ttl now (id user) r) ->
   fst (validateReset now code user w) = Callback (inr true)).
Proof.
  split.
  - intros Hold.
    destruct (validateReset_cases now code user w)
      as (o & w' & Hrun & HT & HP & HU & HH & Hcase).
    rewrite Hrun. cbn [fst snd].
    destruct Hcase as [[[e ->] HC] | [[-> [_ HC]] | [_ (i & r & Hf & _)]]].
    + split; [discriminate | repeat split; assumption].
    + split; [discriminate | repeat split; assumption].
    + exfalso. apply list_find_Some in Hf as (Hi & (Hc & Hu & Hused & Hinv & Hage) & _).
      apply list_elem_of_lookup_2 in Hi.
      pose proof (Hold r Hi Hc Hu Hused Hinv).
      apply (utc_format_window now RESET_EXPIRY_TIME (rc_createdAt r)) in Hage. lia.
  - intros Hh (r & Hin & Hc & Hu & Hused & Hinv & Hage).
    assert (HP : resetCode_where code (id user) (utc_format (now - RESET_EXPIRY_TIME)) r).
    { repeat split; try assumption.
      apply (utc_format_window now RESET_EXPIRY_TIME (rc_createdAt r)). exact Hage. }
    destruct (list_find_elem_of _ _ _ Hin HP) as [[i r'] Hf].
    rewrite (validateReset_found now code user w i r' Hh Hf). reflexivity.
Qed.

Lemma validateReset_expiry_witness :
  fst (validateReset 86401300 "c0de" alice stale_code_world) <> Callback (inr true) /\
  fst (validateReset 86400300 "c0de" alice stale_code_world) = Callback (inr true).
Proof.
  split.
  - apply (validateReset_expiry 86401300 "c0de" alice stale_code_world).
    intros r Hin _ _ _ _. apply list_elem_of_singleton in Hin. subst r.
    vm_compute. discriminate.
  - apply (validateReset_expiry 86400300 "c0de" alice stale_code_world); [reflexivity|].
    exists (resetCode_build "c0de" 1 300). split.
    + apply list_elem_of_singleton. reflexivity.
    + split; [reflexivity|]. unfold reset_within_ttl. cbn. repeat split.
      vm_compute. discriminate.
Defined.

Lemma calls_never_undo_witness :
  exists r', loginTokens (world_after_all
                            [LookupToken 2000 alice "lusab-babad";
                             CreateToken 3000 localhost_octets alice "https://webmaker.org";
                             RemovePassword alice]
                            (snd (lookupToken 1500 alice "lusab-babad" fresh_world)))
               !! 0%nat = Some r' /\
             forall UserId token gte, ~ loginToken_where UserId token gte r'.
Proof.
  apply (calls_never_undo _ (snd (lookupToken 1500 alice "lusab-babad" fresh_world)))
    with (r := lt_set_used true (loginToken_build "lusab-babad" 1 1000)); reflexivity.
Defined.

(** ** Issuing and invalidating *)

Lemma filter_none_map {A} (P : A -> Prop) `{!forall x, Decision (P x)} (f : A -> A)
  (l : list A) :
  Forall (fun x => ~ P x) l ->
  filter P l = [] /\ map (fun x => if decide (P x) then f x else x) l = l.
Proof.
  induction 1 as [|x l Hx _ [IH1 IH2]]; [split; reflexivity|].
  split.
  - rewrite filter_cons_False by exact Hx. exact IH1.
  - cbn. rewrite decide_False by exact Hx. rewrite IH2. reflexivity.
Qed.

(** X6.  [invalidateActiveResets] is idempotent: after one invalidation
    for a user (database answering), another one for the same user at the
    same time or later reports 0 rows and changes nothing. *)
Theorem invalidateActiveResets_idempotent (now now' : Z) (user : User) (w : World) :
  failing w = [] -> now <= now' ->
  let w' := snd (invalidateActiveResets now user w) in
  invalidateActiveResets now' user w' = (Callback (inr 0%nat), w').
Proof.
  intros Hh Hle w'.
  assert (Hw' : w' = set_resetCodes
                       (map (fun r => if decide (resetCode_active (id user)
                                                    (utc_format (now - RESET_EXPIRY_TIME)) r)
                                      then rc_set_invalid true r else r)) w).
  { unfold w'. rewrite (invalidateActiveResets_healthy now user w Hh). reflexivity. }
  assert (Hh' : failing w' = []) by (rewrite Hw'; exact Hh).
  rewrite (invalidateActiveResets_healthy now' user w' Hh').
  pose proof (invalidated_stay_inactive now now' (id user) (resetCodes w) Hle) as Hdead.
  cbv zeta in Hdead.
  assert (Hcodes : resetCodes w' =
                     map (fun r => if decide (resetCode_active (id user)
                                                (utc_format (now - RESET_EXPIRY_TIME)) r)
                                   then rc_set_invalid true r else r) (resetCodes w))
    by (rewrite Hw'; reflexivity).
  rewrite <- Hcodes in Hdead.
  destruct (filter_none_map _ (rc_set_invalid true) _ Hdead) as [Hnil Hmap].
  rewrite Hnil. f_equal. unfold set_resetCodes. rewrite Hmap. destruct w'. reflexivity.
Qed.

Lemma invalidateActiveResets_idempotent_witness :
  let w' := snd (invalidateActiveResets 5000 alice stale_code_world) in
  invalidateActiveResets 6000 alice w' = (Callback (inr 0%nat), w').
Proof.
  apply (invalidateActiveResets_idempotent 5000 6000 alice stale_code_world);
    [reflexivity | lia].
Defined.

(** X7.  A notification goes out exactly when the row was stored, and
    carries the stored text.  Under any database script [createToken]
    either calls back without error, having appended one unused row and
    sent one [login_token_email] whose [token] and [loginUrl] carry the text
    of that row, or calls back with the database's error, having stored
    and sent nothing.  [createResetCode] does the same with one
    [reset_code_created], except that the database's error is replaced by
    the text "Error Creating Reset Authorization". *)
Theorem issue_stores_then_notifies :
  (forall now entropy userObj appURL w,
     let token := proquint.encode (crypto_randomBytes entropy 4) in
     let o := fst (createToken now entropy userObj appURL w) in
     let w' := snd (createToken now entropy userObj appURL w) in
     resetCodes w' = resetCodes w /\ passwords w' = passwords w /\ users w' = users w /\
     (o = Callback (inr tt) /\
      loginTokens w' = (loginTokens w ++ [loginToken_build token (id userObj) now])%list /\
      hatchet w' = (hatchet w ++ [login_token_email userObj appURL token])%list
      \/
      o = Callback (inl ErrStore) /\
      loginTokens w' = loginTokens w /\ hatchet w' = hatchet w)) /\
  (forall now stack random WEBMAKERORG user w code,
     Hat.hat stack RESET_CODE_BIT_LENGTH RESET_CODE_BASE random = Some code ->
     let o := fst (createResetCode now stack random WEBMAKERORG user w) in
     let w' := snd (createResetCode now stack random WEBMAKERORG user w) in
     loginTokens w' = loginTokens w /\ passwords w' = passwords w /\ users w' = users w /\
     (o = Callback (inr tt) /\
      resetCodes w' = (resetCodes w ++ [resetCode_build code (id user) now])%list /\
      hatchet w' = (hatchet w ++ [reset_code_created user WEBMAKERORG code])%list
      \/
      o = Callback (inl (ErrString "Error Creating Reset Authorization")) /\
      resetCodes w' = resetCodes w /\ hatchet w' = hatchet w)).
Proof.
  split.
  - intros now entropy userObj appURL w. cbv zeta.
    destruct (createToken now entropy userObj appURL w) as [o w'] eqn:Hrun.
    unfold createToken, complete, then_ at 1, loginToken_save, then_ at 1, request in Hrun.
    destruct (failing w) as [|[] rest]; cbn in Hrun; inversion Hrun; subst o w'; cbn;
      repeat split;
      first [ left; repeat split; reflexivity | right; repeat split; reflexivity ].
  - intros now stack random WEBMAKERORG user w code Hhat. cbv zeta.
    destruct (createResetCode now stack random WEBMAKERORG user w) as [o w'] eqn:Hrun.
    unfold createResetCode in Hrun. rewrite Hhat in Hrun.
    unfold complete, error_, then_ at 1, resetCode_save, then_ at 1, request in Hrun.
    destruct (failing w) as [|[] rest]; cbn in Hrun; inversion Hrun; subst o w'; cbn;
      repeat split;
      first [ left; repeat split; reflexivity | right; repeat split; reflexivity ].
Qed.

Lemma issue_stores_then_notifies_witness :
  hatchet (snd (createResetCode 1000 1 count_draws "https://webmaker.org" alice
                  (set_failing (fun _ => [true]) empty_world))) = [] /\
  fst (createResetCode 1000 1 count_draws "https://webmaker.org" alice
         (set_failing (fun _ => [true]) empty_world))
    = Callback (inl (ErrString "Error Creating Reset Authorization")).
Proof.
  destruct issue_stores_then_notifies as [_ Hcode].
  destruct (Hcode 1000 1%nat count_draws "https://webmaker.org" alice
              (set_failing (fun _ => [true]) empty_world)
              "fedcba9876543210fedcba9876543210fedcba9876543210fedcba9876543210")
    as (_ & _ & _ & [(Hok & _) | (Herr & _ & Hq)]).
  - vm_compute. reflexivity.
  - vm_compute in Hok. discriminate.
  - split; [exact Hq | exact Herr].
Defined.

(** ** Passwords under failures, and after success *)

Lemma user_setPassword_unheard user pass w rest :
  failing w = true :: rest ->
  user_setPassword user pass w = (None, set_failing (fun _ => rest) w).
Proof.
  intros Hf. unfold user_setPassword.
  apply chain_then_unsettled. eapply unheard_rejected.
  apply then_rejected, request_rejected. exact Hf.
Qed.

Lemma password_destroy_answered p k w rest :
  pi_id p = Some k -> failing w = false :: rest ->
  password_destroy p w =
    (inr tt, set_passwords (alter (fun _ => None) k) (set_failing (fun _ => rest) w)).
Proof.
  intros Hk Hf. unfold password_destroy.
  rewrite (then_fulfilled _ _ w tt _ (request_answered w rest Hf)). rewrite Hk. reflexivity.
Qed.

(** X8.  The two writes of a password operation are not one unit.  When
    the database answers the first request and fails the second:
    [changePassword] has set [usePasswordLogin] to true although no
    password row was written and nothing was sent, and its callback is
    never invoked, with or without an error, because the failed request is
    the fetch inside [user.setPassword], to whose failure nothing listens;
    [removePassword] has destroyed the password row although
    [usePasswordLogin] was left as it was, and calls back with its generic
    error. *)
Theorem password_writes_not_atomic :
  (forall bcrypt newPass user w rest,
     failing w = false :: true :: rest ->
     exists w',
       changePassword bcrypt newPass user w = (NoCallback, w') /\
       (forall row, users w !! id user = Some row ->
          exists row', users w' !! id user = Some row' /\
            u_usePasswordLogin row' = true /\ u_username row' = u_username row /\
            u_email row' = u_email row /\ u_verified row' = u_verified row) /\
       passwords w' = passwords w /\ hatchet w' = hatchet w /\ failing w' = rest) /\
  (forall user p k w rest,
     password user = Some p -> pi_id p = Some k ->
     failing w = false :: true :: rest ->
     exists w',
       removePassword user w
         = (Callback (inl (ErrObject "Error removing password")), w') /\
       passwords w' = alter (fun _ => None) k (passwords w) /\
       users w' = users w /\ hatchet w' = hatchet w).
Proof.
  split.
  - intros bcrypt newPass user w rest Hf. eexists.
    unfold changePassword, chain_complete, chain_error.
    erewrite chain_then_fulfilled
      by (apply settled_run, user_updateAttributes_answered; exact Hf).
    erewrite chain_then_unsettled by (apply user_setPassword_unheard; reflexivity).
    split; [reflexivity|]. split; [|repeat split].
    intros row Hrow. cbn. apply user_flag_written. exact Hrow.
  - intros user p k w rest Hp Hk Hf. eexists.
    unfold removePassword. rewrite Hp. unfold complete, error_.
    erewrite then_fulfilled by (apply (password_destroy_answered p k); [exact Hk | exact Hf]).
    erewrite then_rejected by (apply user_updateAttributes_rejected; reflexivity).
    cbn. repeat split.
Qed.

Lemma password_writes_not_atomic_witness :
  exists w',
    changePassword bcrypt_toy "hunter2" alice
      (set_failing (fun _ => [false; true]) users_world)
      = (NoCallback, w') /\
    (exists row', users w' !! 1%nat = Some row' /\ u_usePasswordLogin row' = true) /\
    passwords w' = [] /\ hatchet w' = [].
Proof.
  destruct password_writes_not_atomic as [Hchange _].
  destruct (Hchange bcrypt_toy "hunter2" alice
              (set_failing (fun _ => [false; true]) users_world) [] eq_refl)
    as (w' & Hrun & Hu & Hp & Hq & _).
  destruct (Hu alice_row eq_refl) as (row' & Hrow' & Htrue & _).
  exists w'. split; [exact Hrun|].
  split; [exists row'; split; [exact Hrow' | exact Htrue]|].
  split; [exact Hp | exact Hq].
Defined.

Lemma filter_nil_lookup {A} (P : A -> Prop) `{!forall x, Decision (P x)} (l : list A) j x :
  filter P l = [] -> l !! j = Some x -> ~ P x.
Proof.
  intros Hnil Hj HP. apply (filter_nil_not_elem_of P l x Hnil HP).
  eapply list_elem_of_lookup_2. exact Hj.
Qed.

Lemma unlink_first_none UserId (t : list (option Password)) :
  (length (filter (password_of UserId) t) <= 1)%nat ->
  filter (password_of UserId)
    (match list_find (password_of UserId) t with
     | Some (k, _) => alter pw_unlink k t
     | None => t
     end) = [].
Proof.
  intros Hone. destruct (list_find (password_of UserId) t) as [[k o]|] eqn:Hf.
  - eapply filter_alter_first; [exact Hone | exact Hf | apply pw_unlink_not_linked].
  - apply filter_find_None. exact Hf.
Qed.

(** After [relink] the user's row sits under one key, and no other row is
    linked to the user. *)
Lemma relink_linked UserId pass (t : list (option Password)) :
  (length (filter (password_of UserId) t) <= 1)%nat ->
  (forall k, pi_id pass = Some k -> exists r, t !! k = Some (Some r)) ->
  exists k,
    relink UserId pass t !! k
      = Some (Some {| pw_UserId := Some UserId; pw_saltedHash := pi_saltedHash pass |}) /\
    forall j o, relink UserId pass t !! j = Some o -> password_of UserId o -> j = k.
Proof.
  intros Hone Hsync. pose proof (unlink_first_none UserId t Hone) as Hnil.
  unfold relink.
  set (t1 := match list_find (password_of UserId) t with
             | Some (k, _) => alter pw_unlink k t
             | None => t
             end) in *.
  destruct (pi_id pass) as [k|] eqn:Hp.
  - destruct (Hsync k eq_refl) as [r Hk].
    assert (Hk1 : exists r1, t1 !! k = Some (Some r1)).
    { unfold t1. destruct (list_find (password_of UserId) t) as [[k' o]|]; [|eauto].
      destruct (decide (k' = k)) as [->|Hne].
      - rewrite list_lookup_alter_eq, Hk. cbn. eauto.
      - rewrite list_lookup_alter_ne by exact Hne. eauto. }
    destruct Hk1 as [r1 Hk1]. exists k. split.
    + rewrite list_lookup_alter_eq, Hk1. reflexivity.
    + intros j o Hj HP. destruct (decide (k = j)) as [->|Hne]; [reflexivity|].
      rewrite list_lookup_alter_ne in Hj by exact Hne.
      exfalso. exact (filter_nil_lookup _ t1 j o Hnil Hj HP).
  - exists (length t1). split.
    + rewrite lookup_app_r by lia. rewrite Nat.sub_diag. reflexivity.
    + intros j o Hj HP. apply lookup_app_Some in Hj as [Hj | [Hlen Hj]].
      * exfalso. exact (filter_nil_lookup _ t1 j o Hnil Hj HP).
      * destruct (j - length t1)%nat as [|n] eqn:Hn; [lia|]. destruct n; discriminate.
Qed.

Lemma removePassword_healthy user p k w :
  failing w = [] -> password user = Some p -> pi_id p = Some k ->
  removePassword user w =
    (Callback (inr tt),
     set_users (alter (u_set_usePasswordLogin false) (id user))
       (set_passwords (alter (fun _ => None) k) w)).
Proof.
  intros Hh Hp Hk. unfold removePassword. rewrite Hp. unfold complete, error_.
  assert (Hd : password_destroy p w = (inr tt, set_passwords (alter (fun _ => None) k) w)).
  { unfold password_destroy.
    rewrite (then_fulfilled _ _ w tt w (request_healthy w Hh)). rewrite Hk. reflexivity. }
  rewrite (then_fulfilled _ _ w tt _ Hd).
  erewrite then_fulfilled by (apply user_updateAttributes_healthy; exact Hh).
  reflexivity.
Qed.

(** X9.  With a database that answers, [removePassword] for a user loaded
    with password row [k] calls back without error, leaves a hole under
    key [k], leaves the user's row with [usePasswordLogin] false and its
    other columns as before, changes no other user row, sends no
    notification and touches no login token or reset code.  If row [k] was the only row
    linked to the user, no row is linked afterwards, and a later
    [changePassword] for the user, loaded afresh without a password, links
    exactly one row again. *)
Theorem removePassword_removes (user : User) (p : PasswordInstance) (k : nat) (w : World) :
  failing w = [] -> password user = Some p -> pi_id p = Some k ->
  exists w',
    removePassword user w = (Callback (inr tt), w') /\
    passwords w' = alter (fun _ => None) k (passwords w) /\
    (forall row, users w !! id user = Some row ->
       exists row', users w' !! id user = Some row' /\
         u_usePasswordLogin row' = false /\ u_username row' = u_username row /\
         u_email row' = u_email row /\ u_verified row' = u_verified row) /\
    (forall j, j <> id user -> users w' !! j = users w !! j) /\
    loginTokens w' = loginTokens w /\ resetCodes w' = resetCodes w /\
    hatchet w' = hatchet w /\
    (only_password_at (id user) k w ->
     credentials (id user) w' = 0%nat /\
     forall bcrypt newPass user',
       id user' = id user -> password user' = None ->
       fst (changePassword bcrypt newPass user' w') = Callback (inr tt) /\
       credentials (id user) (snd (changePassword bcrypt newPass user' w')) = 1%nat).
Proof.
  intros Hh Hp Hk. eexists. split; [apply (removePassword_healthy user p k w Hh Hp Hk)|].
  split; [reflexivity|]. split.
  { intros row Hrow. cbn. apply user_flag_written. exact Hrow. }
  split.
  { intros j Hj. cbn. apply list_lookup_alter_ne. congruence. }
  split; [reflexivity|]. split; [reflexivity|]. split; [reflexivity|].
  intros Honly.
  assert (Hzero : filter (password_of (id user)) (alter (fun _ => None) k (passwords w)) = []).
  { apply filter_find_None, list_find_None, Forall_lookup. intros j o Hj HP.
    destruct (decide (k = j)) as [->|Hne].
    - rewrite list_lookup_alter_eq in Hj. destruct (passwords w !! j); [|discriminate].
      cbn in Hj. inversion Hj. subst o. destruct HP as (r & E & _). discriminate.
    - rewrite list_lookup_alter_ne in Hj by exact Hne.
      apply Hne. symmetry. exact (Honly j o Hj HP). }
  split.
  - unfold credentials. cbn. rewrite Hzero. reflexivity.
  - intros bcrypt newPass user' Hid Hnone.
    set (w' := set_users _ _).
    assert (Hh' : failing w' = []) by exact Hh.
    rewrite (changePassword_healthy bcrypt newPass user' w' Hh'). cbn [fst snd].
    split; [reflexivity|]. unfold credentials. cbn. rewrite Hid.
    apply relink_one.
    + rewrite Hzero. cbn. lia.
    + intros k0 Hk0. rewrite Hnone in Hk0. discriminate.
Qed.

Lemma removePassword_removes_witness :
  exists w',
    removePassword alice_with_password
      (set_users (fun _ => [alice_row; u_set_usePasswordLogin true alice_row]) password_world)
      = (Callback (inr tt), w') /\
    passwords w' = [None] /\
    (exists row', users w' !! 1%nat = Some row' /\ u_usePasswordLogin row' = false) /\
    credentials 1 w' = 0%nat.
Proof.
  destruct (removePassword_removes alice_with_password
              {| pi_id := Some 0%nat; pi_saltedHash := Some "salt$old" |} 0
              (set_users (fun _ => [alice_row; u_set_usePasswordLogin true alice_row])
                 password_world)
              eq_refl eq_refl eq_refl)
    as (w' & Hrun & Hp & Hflag & _ & _ & _ & _ & Honly).
  destruct (Hflag (u_set_usePasswordLogin true alice_row) eq_refl) as (row' & Hrow' & Hfalse & _).
  exists w'. split; [exact Hrun|]. split; [exact Hp|].
  split; [exists row'; split; [exact Hrow' | exact Hfalse]|].
  apply Honly. intros j o Hj _. destruct j as [|j]; [reflexivity | discriminate].
Defined.

(** X10.  With a database that answers and a bcrypt that returns salt
    [s] for 12 rounds and hash [h] for the new password under [s]:
    [changePassword] stores [h], and only under the one key [k] linked to
    the user (at most one row was linked before, and a loaded password
    instance is a row of the table); [compare], called for the user loaded
    with that row, hands bcrypt's verdict on the candidate and [h] to its
    callback and changes nothing. *)
Theorem changePassword_then_compare (bcrypt : Bcrypt) (newPass s h : string)
  (user : User) (w : World) :
  failing w = [] ->
  (credentials (id user) w <= 1)%nat ->
  (forall p k, password user = Some p -> pi_id p = Some k ->
     exists r, passwords w !! k = Some (Some r)) ->
  bcrypt_genSalt bcrypt BCRYPT_ROUNDS = Some s ->
  bcrypt_hash bcrypt newPass s = Some h ->
  exists w' k,
    changePassword bcrypt newPass user w = (Callback (inr tt), w') /\
    passwords w' !! k = Some (Some {| pw_UserId := Some (id user); pw_saltedHash := Some h |}) /\
    only_password_at (id user) k w' /\
    forall pass verdict,
      bcrypt_compare bcrypt pass h = Some verdict ->
      compare bcrypt pass
        (with_password user k {| pw_UserId := Some (id user); pw_saltedHash := Some h |}) w'
        = (Callback (inr verdict), w').
Proof.
  intros Hh Hone Hsync Hsalt Hhash.
  pose proof (changePassword_healthy bcrypt newPass user w Hh) as Hrun. cbv zeta in Hrun.
  rewrite Hsalt, Hhash in Hrun.
  set (pass := pi_set_saltedHash (Some h) _) in Hrun.
  assert (Hsync' : forall k, pi_id pass = Some k -> exists r, passwords w !! k = Some (Some r)).
  { intros k Hk. unfold pass in Hk. cbn in Hk.
    destruct (password user) as [p|] eqn:Hp; [|discriminate].
    exact (Hsync p k eq_refl Hk). }
  destruct (relink_linked (id user) pass (passwords w) Hone Hsync') as (k & Hrow & Honly).
  eexists. exists k. split; [exact Hrun|]. split; [exact Hrow|]. split; [exact Honly|].
  intros candidate verdict Hv. unfold compare, with_password. cbn. rewrite Hv. reflexivity.
Qed.

Lemma changePassword_then_compare_witness :
  exists w' k,
    changePassword bcrypt_toy "hunter2" alice users_world = (Callback (inr tt), w') /\
    passwords w' !! k
      = Some (Some {| pw_UserId := Some 1%nat; pw_saltedHash := Some "salt$hunter2" |}) /\
    compare bcrypt_toy "hunter2"
      (with_password alice k {| pw_UserId := Some 1%nat; pw_saltedHash := Some "salt$hunter2" |})
      w' = (Callback (inr true), w').
Proof.
  destruct (changePassword_then_compare bcrypt_toy "hunter2" "salt" "salt$hunter2"
              alice users_world eq_refl)
    as (w' & k & Hrun & Hrow & _ & Hcmp).
  - vm_compute. lia.
  - intros p k Hp. discriminate.
  - reflexivity.
  - reflexivity.
  - exists w', k. split; [exact Hrun|]. split; [exact Hrow|].
    apply Hcmp. reflexivity.
Defined.

(** X11.  Token texts identify the octets drawn.  With a database that
    answers, each call of [createToken] appends one row whose text is 11
    characters long, and the rows appended by two calls carry the same
    text exactly when the two calls drew the same four octets. *)
Theorem token_text_identifies_octets (now1 now2 : Z) (entropy1 entropy2 : nat -> Z)
  (userObj1 userObj2 : User) (appURL1 appURL2 : string) (w1 w2 : World) :
  failing w1 = [] -> failing w2 = [] ->
  exists r1 r2,
    loginTokens (snd (createToken now1 entropy1 userObj1 appURL1 w1))
      = (loginTokens w1 ++ [r1])%list /\
    loginTokens (snd (createToken now2 entropy2 userObj2 appURL2 w2))
      = (loginTokens w2 ++ [r2])%list /\
    String.length (lt_token r1) = 11%nat /\ String.length (lt_token r2) = 11%nat /\
    (lt_token r1 = lt_token r2 <->
     crypto_randomBytes entropy1 4 = crypto_randomBytes entropy2 4).
Proof.
  intros Hh1 Hh2.
  assert (Hback : forall entropy,
            login_token_bytes (proquint.encode (crypto_randomBytes entropy 4))
              = Some (crypto_randomBytes entropy 4)).
  { intros entropy. pose proof (crypto_randomBytes_octets entropy 4) as Hoct.
    change (crypto_randomBytes entropy 4)
      with [entropy 0%nat mod 256; entropy 1%nat mod 256;
            entropy 2%nat mod 256; entropy 3%nat mod 256] in *.
    apply Forall_cons in Hoct as [H0 Hoct]. apply Forall_cons in Hoct as [H1 Hoct].
    apply Forall_cons in Hoct as [H2 Hoct]. apply Forall_cons in Hoct as [H3 _].
    apply login_token_bytes_encode; assumption. }
  destruct (createToken_healthy now1 entropy1 userObj1 appURL1 w1 Hh1) as [q1 Hrun1].
  destruct (createToken_healthy now2 entropy2 userObj2 appURL2 w2 Hh2) as [q2 Hrun2].
  cbv zeta in Hrun1, Hrun2. rewrite Hrun1, Hrun2.
  do 2 eexists. split; [reflexivity|]. split; [reflexivity|].
  split; [reflexivity|]. split; [reflexivity|].
  cbn [lt_token loginToken_build]. split.
  - intros Heq. pose proof (Hback entropy1) as H1. rewrite Heq, Hback in H1.
    apply (inj Some) in H1. symmetry. exact H1.
  - intros ->. reflexivity.
Qed.

Lemma token_text_identifies_octets_witness :
  exists r1 r2,
    loginTokens (snd (createToken 1000 localhost_octets alice "https://webmaker.org"
                        empty_world)) = [r1] /\
    loginTokens (snd (createToken 1000 zero_octets alice "https://webmaker.org"
                        empty_world)) = [r2] /\
    lt_token r1 <> lt_token r2.
Proof.
  destruct (token_text_identifies_octets 1000 1000 localhost_octets zero_octets alice alice
              "https://webmaker.org" "https://webmaker.org" empty_world empty_world
              eq_refl eq_refl) as (r1 & r2 & H1 & H2 & _ & _ & Hiff).
  exists r1, r2. split; [exact H1|]. split; [exact H2|].
  intros Heq. apply Hiff in Heq. vm_compute in Heq. discriminate.
Defined.

(** ** An invalidation between the find and the flip *)

(** X12.  An invalidation that lands between the two requests of a
    validation does not stop it.  With a database that answers and a code
    row that matches, when [invalidateActiveResets] for the same user runs
    after the find of [validateReset] and before its update, the
    invalidation counts the row, and the validation still answers [true]:
    the row ends both invalid and used. *)
Theorem validateReset_outruns_invalidation (now now_inv : Z) (code : string) (user : User)
  (w : World) (i : nat) (r : ResetCode) :
  failing w = [] ->
  list_find (resetCode_where code (id user) (utc_format (now - RESET_EXPIRY_TIME)))
    (resetCodes w) = Some (i, r) ->
  resetCode_active (id user) (utc_format (now_inv - RESET_EXPIRY_TIME)) r ->
  let (st1, w1) := validateReset_step now code user Finding w in
  let (n, w2) := invalidateActiveResets now_inv user w1 in
  let (st2, w3) := validateReset_step now code user st1 w2 in
  st2 = Finished (inr true) /\
  (exists count, n = Callback (inr (S count))) /\
  exists r', resetCodes w3 !! i = Some r' /\ rc_invalid r' = true /\ rc_used r' = true /\
             rc_code r' = code /\ rc_UserId r' = id user.
Proof.
  intros Hh Hf Hact.
  rewrite (validateReset_step_find now code user w i r Hh Hf).
  rewrite (invalidateActiveResets_healthy now_inv user w Hh).
  set (P := resetCode_active (id user) (utc_format (now_inv - RESET_EXPIRY_TIME))).
  rewrite validateReset_step_flip by exact Hh.
  apply list_find_Some in Hf as (Hi & (Hc & Hu & _) & _).
  split; [reflexivity|]. split.
  - pose proof (take_drop_middle _ _ _ Hi) as Hsplit. rewrite <- Hsplit.
    rewrite filter_app, filter_cons_True by exact Hact.
    rewrite length_app. cbn [length]. eexists. f_equal. f_equal.
    rewrite Nat.add_succ_r. reflexivity.
  - exists (rc_set_used true (rc_set_invalid true r)). cbn.
    rewrite list_lookup_alter_eq, list_lookup_fmap, Hi. cbn.
    rewrite decide_True by exact Hact. repeat split; assumption.
Qed.

Lemma validateReset_outruns_invalidation_witness :
  let (st1, w1) := validateReset_step 2000 "c0de" alice Finding fresh_world in
  let (n, w2) := invalidateActiveResets 2001 alice w1 in
  let (st2, w3) := validateReset_step 2000 "c0de" alice st1 w2 in
  st2 = Finished (inr true) /\
  (exists count, n = Callback (inr (S count))) /\
  exists r', resetCodes w3 !! 0%nat = Some r' /\ rc_invalid r' = true /\ rc_used r' = true /\
             rc_code r' = "c0de" /\ rc_UserId r' = id alice.
Proof.
  apply (validateReset_outruns_invalidation 2000 2001 "c0de" alice fresh_world 0
           (resetCode_build "c0de" 1 1000)).
  - reflexivity.
  - vm_compute. reflexivity.
  - unfold resetCode_active. cbn. repeat split. vm_compute. discriminate.
Defined.

(** ** The user operations *)

Lemma site_request_tables s :
  site_users (snd (site_request s)) = site_users s /\
  site_hatchet (snd (site_request s)) = site_hatchet s.
Proof. unfold site_request. destruct (site_failing s) as [|[] rest]; split; reflexivity. Qed.

Lemma site_request_healthy s : site_failing s = [] -> site_request s = (true, s).
Proof. intros H. unfold site_request. rewrite H. reflexivity. Qed.

(** X13.  [createUser] turns incomplete data away before anything else
    happens.  Without data, with a username that is absent, empty, 0 or
    [false], or (the username being given) with such an email, the callback
    receives the text naming the first thing missing, in that order; a
    username that is given but is not a string makes the call raise a
    [TypeError].  In all these cases nothing is validated, requested,
    stored or sent. *)
Theorem createUser_incomplete_data (m : UserModel) (toLowerCase : string -> string) (now : Z)
  (s : Site) :
  createUser m toLowerCase now None s = (Callback (inl (ErrString "No data passed!")), s) /\
  (forall data, truthy (data_username data) = false ->
     createUser m toLowerCase now (Some data) s
       = (Callback (inl (ErrString "No username passed!")), s)) /\
  (forall data, truthy (data_username data) = true -> truthy (data_email data) = false ->
     createUser m toLowerCase now (Some data) s
       = (Callback (inl (ErrString "No email passed!")), s)) /\
  (forall data, truthy (data_username data) = true -> truthy (data_email data) = true ->
     (forall name, data_username data <> Some (JsString name)) ->
     createUser m toLowerCase now (Some data) s = (Throws TypeError, s)).
Proof.
  split; [reflexivity|]. split; [|split].
  - intros data Hu. unfold createUser. rewrite Hu. reflexivity.
  - intros data Hu He. unfold createUser. rewrite Hu, He. reflexivity.
  - intros data Hu He Hns. unfold createUser. rewrite Hu, He. cbn.
    destruct (data_username data) as [[n|name|b]|]; try reflexivity.
    exfalso. exact (Hns name eq_refl).
Qed.

Lemma createUser_incomplete_data_witness :
  createUser lenient_model ascii_toLowerCase 1000
    (Some {| data_username := Some (JsString ""); data_email := None;
             data_mailingList := None; data_prefLocale := None |}) empty_site
    = (Callback (inl (ErrString "No username passed!")), empty_site) /\
  createUser lenient_model ascii_toLowerCase 1000
    (Some {| data_username := Some (JsNumber 7); data_email := Some (JsString "x@example.org");
             data_mailingList := None; data_prefLocale := None |}) empty_site
    = (Throws TypeError, empty_site).
Proof.
  destruct (createUser_incomplete_data lenient_model ascii_toLowerCase 1000 empty_site)
    as (_ & Hname & _ & Htype).
  split.
  - apply Hname. reflexivity.
  - apply Htype; [reflexivity | reflexivity | discriminate].
Defined.

Lemma insert_row_spec (row : Account) (t : list (option Account)) :
  (1 <= next_key t)%nat /\ (length t <= next_key t)%nat /\
  insert_row row t !! next_key t = Some (Some row) /\
  length (insert_row row t) = S (next_key t) /\
  (forall j, (j < length t)%nat -> insert_row row t !! j = t !! j) /\
  (forall j, (length t <= j < next_key t)%nat -> insert_row row t !! j = Some None).
Proof.
  unfold insert_row, next_key. destruct t as [|x t].
  - cbn. split; [lia|]. split; [lia|]. split; [reflexivity|]. split; [reflexivity|].
    split; intros j Hj; [lia|]. destruct j as [|j]; [reflexivity | lia].
  - replace (Nat.max 1 (length (x :: t))) with (length (x :: t)) by (cbn; lia).
    rewrite Nat.sub_diag. cbn [replicate]. rewrite app_nil_l.
    split; [cbn; lia|]. split; [lia|]. split; [|split; [|split]].
    + rewrite lookup_app_r by lia. rewrite Nat.sub_diag. reflexivity.
    + rewrite length_app. cbn. lia.
    + intros j Hj. apply lookup_app_l. exact Hj.
    + intros j Hj. lia.
Qed.

Lemma createUser_cases m toLowerCase now data s :
  exists o s',
    createUser m toLowerCase now data s = (o, s') /\
    ((forall i a, o <> Callback (inr (i, a))) /\
     site_users s' = site_users s /\ site_hatchet s' = site_hatchet s
     \/
     exists d name email,
       data = Some d /\ data_username d = Some (JsString name) /\ name <> "" /\
       data_email d = Some email /\
       let a := user_build email name (data_mailingList d) (toLowerCase name) now
                  (data_prefLocale d) in
       validate m a = None /\
       o = Callback (inr (next_key (site_users s), a)) /\
       site_users s' = insert_row (user_insert m a) (site_users s) /\
       site_hatchet s' =
         (site_hatchet s ++ [create_user_event (next_key (site_users s)) a])%list).
Proof.
  unfold createUser.
  destruct data as [d|]; [|do 2 eexists; split; [reflexivity|]; left; repeat split; discriminate].
  destruct (truthy (data_username d)) eqn:Hu; cbn [negb];
    [|do 2 eexists; split; [reflexivity|]; left; repeat split; discriminate].
  destruct (truthy (data_email d)) eqn:He; cbn [negb];
    [|do 2 eexists; split; [reflexivity|]; left; repeat split; discriminate].
  destruct (data_username d) as [[n|name|b]|] eqn:Hname;
    try (do 2 eexists; split; [reflexivity|]; left; repeat split; discriminate).
  destruct (data_email d) as [email|] eqn:Hemail;
    [|do 2 eexists; split; [reflexivity|]; left; repeat split; discriminate].
  destruct (validate m _) as [err|] eqn:Hval;
    [do 2 eexists; split; [reflexivity|]; left; repeat split; discriminate|].
  pose proof (site_request_tables s) as [HU HH].
  destruct (site_request s) as [[] s1]; cbn [snd] in HU, HH.
  - do 2 eexists. split; [reflexivity|]. right. exists d, name, email.
    split; [reflexivity|]. split; [exact Hname|]. split.
    { intros ->. cbn in Hu. discriminate. }
    split; [exact Hemail|]. cbv zeta. split; [exact Hval|].
    unfold site_send, site_set_users. cbn [site_users site_hatchet].
    rewrite HU, HH. repeat split.
  - do 2 eexists. split; [reflexivity|]. left. rewrite HU, HH. repeat split. discriminate.
Qed.

(** X14.  [createUser] stores and notifies all or nothing.  Whatever the
    data, the validation and the database do: unless the callback
    receives a saved user, the users table and the notifications are as
    before.  When it does, the data carried a username that is a string;
    the instance handed to the callback holds the lowercased username,
    the username as given for [fullName], the email as given, the time of
    the call, and the two optional properties exactly as the data had
    them, absent when the data lacked them; it passed validation.  Its key
    is the next key of the table, 1 for an empty table.  Exactly one row
    was added, under that key: it holds the values of the instance, with
    the column defaults where the instance has none.  No earlier row
    changed, and exactly one [create_user] was sent, with the key, the
    username, the email and only those optional properties that the data
    had. *)
Theorem createUser_all_or_nothing (m : UserModel) (toLowerCase : string -> string) (now : Z)
  (data : option UserData) (s : Site) :
  let o := fst (createUser m toLowerCase now data s) in
  let s' := snd (createUser m toLowerCase now data s) in
  ((forall i a, o <> Callback (inr (i, a))) ->
   site_users s' = site_users s /\ site_hatchet s' = site_hatchet s) /\
  (forall i a, o = Callback (inr (i, a)) ->
   exists d name row,
     data = Some d /\ data_username d = Some (JsString name) /\
     a_username a = toLowerCase name /\ a_fullName a = name /\
     data_email d = Some (a_email a) /\ a_lastLoggedIn a = now /\
     a_subscribeToWebmakerList a = data_mailingList d /\
     a_prefLocale a = data_prefLocale d /\
     validate m a = None /\
     i = Nat.max 1 (length (site_users s)) /\
     site_users s' !! i = Some (Some row) /\
     a_username row = toLowerCase name /\ a_fullName row = name /\
     a_email row = a_email a /\ a_lastLoggedIn row = now /\
     a_subscribeToWebmakerList row =
       match data_mailingList d with
       | Some v => Some v
       | None => default_subscribeToWebmakerList m
       end /\
     a_prefLocale row =
       match data_prefLocale d with
       | Some v => Some v
       | None => default_prefLocale m
       end /\
     length (site_users s') = S i /\
     (forall j, (j < length (site_users s))%nat -> site_users s' !! j = site_users s !! j) /\
     (forall j, (length (site_users s) <= j < i)%nat -> site_users s' !! j = Some None) /\
     site_hatchet s' =
       (site_hatchet s ++
        [("create_user",
          ([ ("userId", JsNumber (Z.of_nat i));
             ("username", JsString (toLowerCase name));
             ("email", a_email a) ]
           ++ optional "locale" (data_prefLocale d)
           ++ optional "subscribeToWebmakerList" (data_mailingList d))%list)])%list).
Proof.
  destruct (createUser_cases m toLowerCase now data s) as (o & s' & Hrun & Hcase).
  rewrite Hrun. cbn [fst snd]. split.
  - intros Hno.
    destruct Hcase as [(_ & HU & HH) | (d & name & email & _ & _ & _ & _ & _ & Ho & _)].
    + split; assumption.
    + exfalso. eapply Hno. exact Ho.
  - intros i a Ho.
    destruct Hcase as [(Hno & _) | (d & name & email & Hd & Hn & _ & He & Hval & Ho' & HU & HH)].
    + exfalso. eapply Hno. exact Ho.
    + rewrite Ho in Ho'. inversion Ho'. subst i a.
      destruct (insert_row_spec
                  (user_insert m (user_build email name (data_mailingList d)
                                    (toLowerCase name) now (data_prefLocale d)))
                  (site_users s)) as (_ & _ & Hrow & Hlen & Hold & Hhole).
      eexists d, name, _. rewrite HU, HH.
      split; [exact Hd|]. split; [exact Hn|].
      do 4 (split; [first [reflexivity | exact He]|]).
      do 2 (split; [reflexivity|]). split; [exact Hval|]. split; [reflexivity|].
      split; [exact Hrow|]. do 6 (split; [reflexivity|]).
      split; [exact Hlen|]. split; [exact Hold|]. split; [exact Hhole|]. reflexivity.
Qed.

Lemma createUser_all_or_nothing_witness :
  exists a row,
    createUser lenient_model ascii_toLowerCase 1000 (Some bob_data) empty_site
      = (Callback (inr (1%nat, a)),
         {| site_users := [None; Some row];
            site_hatchet := [("create_user",
                              [("userId", JsNumber 1); ("username", JsString "bob");
                               ("email", JsString "bob@example.org")])];
            site_failing := [] |}) /\
    a_username a = "bob" /\ a_fullName a = "Bob" /\
    a_prefLocale a = None /\ a_subscribeToWebmakerList a = None /\
    a_prefLocale row = Some (JsString "en-US") /\
    a_subscribeToWebmakerList row = Some (JsBoolean false).
Proof.
  destruct (createUser_all_or_nothing lenient_model ascii_toLowerCase 1000 (Some bob_data)
              empty_site) as [_ Hok].
  destruct (Hok 1%nat _ eq_refl) as (d & name & row & Hd & Hn & Hlow & Hfull & _).
  do 2 eexists. split; [reflexivity|]. repeat split.
Defined.

Lemma user_find_healthy (P : Account -> Prop) `{!forall a, Decision (P a)} s :
  site_failing s = [] ->
  user_find P s =
    (Callback (inr match list_find (account_where P) (site_users s) with
                   | Some (i, Some a) => Some (i, a)
                   | _ => None
                   end), s).
Proof. intros Hh. unfold user_find. rewrite (site_request_healthy s Hh). reflexivity. Qed.

(** A finder on a table that holds a matching row under key [i] answers a
    matching row under a key no greater, and that very row when no row
    before it matches. *)
Lemma user_find_at (P : Account -> Prop) `{!forall a, Decision (P a)} s i row :
  site_failing s = [] -> site_users s !! i = Some (Some row) -> P row ->
  exists j b,
    user_find P s = (Callback (inr (Some (j, b))), s) /\
    site_users s !! j = Some (Some b) /\ P b /\ (j <= i)%nat /\
    ((forall k b', (k < i)%nat -> site_users s !! k = Some (Some b') -> ~ P b') ->
     j = i /\ b = row).
Proof.
  intros Hh Hi HP. rewrite (user_find_healthy P s Hh).
  assert (Hin : Some row ∈ site_users s) by (eapply list_elem_of_lookup_2; exact Hi).
  assert (Hw : account_where P (Some row)) by (exists row; split; [reflexivity | exact HP]).
  destruct (list_find_elem_of _ _ _ Hin Hw) as [[j o] Hf]. rewrite Hf.
  apply list_find_Some in Hf as (Hj & (b & -> & Hb) & Hmin).
  exists j, b. split; [reflexivity|]. split; [exact Hj|]. split; [exact Hb|].
  assert (Hle : (j <= i)%nat).
  { destruct (decide (j <= i)%nat) as [|Hgt]; [assumption|].
    exfalso. apply (Hmin i (Some row) Hi); [lia | exact Hw]. }
  split; [exact Hle|]. intros Hnone.
  destruct (decide (j = i)) as [->|Hne].
  - rewrite Hi in Hj. inversion Hj. split; reflexivity.
  - exfalso. apply (Hnone j b); [lia | exact Hj | exact Hb].
Qed.

(** X15.  A created user is found again.  After a successful [createUser]
    with key [i], which is at least 1, and with the database answering:
    [getUserById i] finds the stored row, which holds the username, full
    name, email and time of the instance handed to the callback, and the
    optional columns of the instance or, where the instance has none, the
    column defaults; [getUserByUsername] of the lowercased username, and
    [getUserByEmail] of the email when it is a string, find a row with that
    username (or email) under a key no greater than [i], and they find
    the stored row itself when no earlier row had that username (or
    email). *)
Theorem createUser_then_find (m : UserModel) (toLowerCase : string -> string) (now : Z)
  (data : option UserData) (s s' : Site) (i : nat) (a : Account) :
  createUser m toLowerCase now data s = (Callback (inr (i, a)), s') ->
  site_failing s' = [] ->
  (1 <= i)%nat /\
  exists row,
    getUserById i s' = (Callback (inr (Some (i, row))), s') /\
    a_username row = a_username a /\ a_fullName row = a_fullName a /\
    a_email row = a_email a /\ a_lastLoggedIn row = a_lastLoggedIn a /\
    a_subscribeToWebmakerList row =
      match a_subscribeToWebmakerList a with
      | Some v => Some v
      | None => default_subscribeToWebmakerList m
      end /\
    a_prefLocale row =
      match a_prefLocale a with
      | Some v => Some v
      | None => default_prefLocale m
      end /\
    (exists j b,
       getUserByUsername (a_username a) s' = (Callback (inr (Some (j, b))), s') /\
       a_username b = a_username a /\ (j <= i)%nat /\
       ((forall k b', site_users s !! k = Some (Some b') -> a_username b' <> a_username a) ->
        j = i /\ b = row)) /\
    (forall email, a_email a = JsString email ->
       exists j b,
         getUserByEmail email s' = (Callback (inr (Some (j, b))), s') /\
         a_email b = JsString email /\ (j <= i)%nat /\
         ((forall k b', site_users s !! k = Some (Some b') -> a_email b' <> JsString email) ->
          j = i /\ b = row)).
Proof.
  intros Hrun Hh.
  destruct (createUser_cases m toLowerCase now data s) as (o & s0 & Hrun' & Hcase).
  rewrite Hrun in Hrun'. inversion Hrun'. subst o s0. clear Hrun'.
  destruct Hcase as [(Hno & _) | (d & name & email & _ & _ & _ & _ & _ & Ho & HU & _)].
  { exfalso. eapply Hno. reflexivity. }
  inversion Ho. subst i a. clear Ho.
  set (a := user_build _ _ _ _ _ _) in *.
  destruct (insert_row_spec (user_insert m a) (site_users s))
    as (Hpos & _ & Hrow & _ & Hold & Hhole).
  rewrite <- HU in Hrow, Hold, Hhole.
  assert (Hearlier : forall (P : Account -> Prop),
            (forall k b', site_users s !! k = Some (Some b') -> ~ P b') ->
            forall k b', (k < next_key (site_users s))%nat ->
                         site_users s' !! k = Some (Some b') -> ~ P b').
  { intros P Hnone k b' Hk Hb'.
    destruct (decide (k < length (site_users s))%nat) as [Hlt|Hge].
    - rewrite (Hold k Hlt) in Hb'. exact (Hnone k b' Hb').
    - rewrite (Hhole k ltac:(lia)) in Hb'. discriminate. }
  split; [exact Hpos|]. exists (user_insert m a).
  split; [|do 6 (split; [reflexivity|]); split].
  - unfold getUserById. rewrite (site_request_healthy s' Hh), Hrow. reflexivity.
  - destruct (user_find_at (fun b => a_username b = a_username a) s' _ (user_insert m a)
                Hh Hrow eq_refl) as (j & b & Hfind & _ & Hb & Hle & Huniq).
    exists j, b. split; [exact Hfind|]. split; [exact Hb|]. split; [exact Hle|].
    intros Hnone. apply Huniq. apply (Hearlier (fun b => a_username b = a_username a)).
    exact Hnone.
  - intros e He.
    destruct (user_find_at (fun b => a_email b = JsString e) s' _ (user_insert m a)
                Hh Hrow He) as (j & b & Hfind & _ & Hb & Hle & Huniq).
    exists j, b. split; [exact Hfind|]. split; [exact Hb|]. split; [exact Hle|].
    intros Hnone. apply Huniq. apply (Hearlier (fun b => a_email b = JsString e)).
    exact Hnone.
Qed.

Lemma createUser_then_find_witness :
  let s' := snd (createUser lenient_model ascii_toLowerCase 1000 (Some bob_data) empty_site) in
  exists row,
    getUserById 1 s' = (Callback (inr (Some (1%nat, row))), s') /\
    a_username row = "bob" /\ a_prefLocale row = Some (JsString "en-US") /\
    getUserById 0 s' = (Callback (inr None), s').
Proof.
  intros s'.
  destruct (createUser_then_find lenient_model ascii_toLowerCase 1000 (Some bob_data)
              empty_site s' 1%nat
              (user_build (JsString "bob@example.org") "Bob" None "bob" 1000 None)
              eq_refl eq_refl) as (_ & row & Hid & Hname & _ & _ & _ & _ & Hloc & _).
  exists row. split; [exact Hid|]. split; [exact Hname|]. split; [exact Hloc | reflexivity].
Defined.

Lemma deleteUser_cases email s :
  let P := account_where (fun a => a_email a = JsString email) in
  exists o s',
    deleteUser email s = (o, s') /\
    (o <> Callback (inr tt) /\
     site_users s' = site_users s /\ site_hatchet s' = site_hatchet s /\
     (site_failing s = [] -> list_find P (site_users s) = None ->
      o = Callback (inl (ErrString "User not found!")))
     \/
     o = Callback (inr tt) /\
     exists i a,
       list_find P (site_users s) = Some (i, Some a) /\
       site_users s' = alter (fun _ => None) i (site_users s) /\
       site_hatchet s' = (site_hatchet s ++ [delete_user_event i a])%list).
Proof.
  intros P. unfold deleteUser, getUserByEmail, user_find. fold P.
  pose proof (site_request_tables s) as [HU HH].
  assert (Hhealthy : site_failing s = [] -> site_request s = (true, s))
    by apply site_request_healthy.
  destruct (site_request s) as [[] s1]; cbn [snd] in HU, HH.
  - rewrite HU.
    destruct (list_find P (site_users s)) as [[i [a|]]|] eqn:Hf.
    + pose proof (site_request_tables s1) as [HU1 HH1].
      destruct (site_request s1) as [[] s2]; cbn [snd] in HU1, HH1.
      * do 2 eexists. split; [reflexivity|]. right. split; [reflexivity|].
        exists i, a. split; [reflexivity|]. cbn. rewrite HU1, HH1, HU, HH. split; reflexivity.
      * do 2 eexists. split; [reflexivity|]. left. rewrite HU1, HH1, HU, HH.
        repeat split; try discriminate.
    + do 2 eexists. split; [reflexivity|]. left. rewrite HU, HH.
      repeat split; try discriminate.
    + do 2 eexists. split; [reflexivity|]. left. rewrite HU, HH.
      repeat split; try discriminate.
  - do 2 eexists. split; [reflexivity|]. left. rewrite HU, HH.
    repeat split; try discriminate.
    intros Hh _. specialize (Hhealthy Hh). discriminate.
Qed.

(** X16.  [deleteUser] destroys and notifies all or nothing.  Whatever
    the database does: unless the callback is called without error, the
    users table and the notifications are as before; and when it is, the
    first row with that email was destroyed, every other row is under its
    key as before, and exactly one [delete_user] was sent with the key,
    username and email of the destroyed row.  When the database answers
    and no row has that email, the callback receives the text "User not
    found!". *)
Theorem deleteUser_all_or_nothing (email : string) (s : Site) :
  let o := fst (deleteUser email s) in
  let s' := snd (deleteUser email s) in
  (o <> Callback (inr tt) ->
   site_users s' = site_users s /\ site_hatchet s' = site_hatchet s) /\
  (o = Callback (inr tt) ->
   exists i a,
     site_users s !! i = Some (Some a) /\ a_email a = JsString email /\
     (forall j b, (j < i)%nat -> site_users s !! j = Some (Some b) ->
                  a_email b <> JsString email) /\
     site_users s' !! i = Some None /\
     length (site_users s') = length (site_users s) /\
     (forall j, j <> i -> site_users s' !! j = site_users s !! j) /\
     site_hatchet s' = (site_hatchet s ++ [delete_user_event i a])%list) /\
  (site_failing s = [] ->
   (forall j b, site_users s !! j = Some (Some b) -> a_email b <> JsString email) ->
   deleteUser email s = (Callback (inl (ErrString "User not found!")), s)).
Proof.
  destruct (deleteUser_cases email s) as (o & s' & Hrun & Hcase). cbv zeta in Hcase.
  rewrite Hrun. cbn [fst snd]. split; [|split].
  - intros Hno. destruct Hcase as [(_ & HU & HH & _) | (Ho & _)]; [split; assumption|].
    contradiction.
  - intros Ho. destruct Hcase as [(Hno & _) | (_ & i & a & Hf & HU & HH)]; [contradiction|].
    apply list_find_Some in Hf as (Hi & (a' & Ea & Ha) & Hmin).
    apply (inj Some) in Ea. subst a'.
    exists i, a. split; [exact Hi|]. split; [exact Ha|]. split.
    { intros j b Hj Hb Heq. apply (Hmin j (Some b) Hb Hj).
      exists b. split; [reflexivity | exact Heq]. }
    rewrite HU. split.
    { rewrite list_lookup_alter_eq, Hi. reflexivity. }
    split; [apply length_alter|]. split; [|exact HH].
    intros j Hj. apply list_lookup_alter_ne. congruence.
  - intros Hh Hnone.
    assert (Hf : list_find (account_where (fun a => a_email a = JsString email)) (site_users s)
                 = None).
    { apply list_find_None, Forall_lookup. intros j row Hj (b & -> & Hb).
      exact (Hnone j b Hj Hb). }
    destruct Hcase as [(_ & HU & HH & Hnf) | (_ & i & a & Hf' & _)].
    + rewrite (Hnf Hh Hf). f_equal.
      unfold deleteUser, getUserByEmail in Hrun.
      rewrite (user_find_healthy _ s Hh), Hf in Hrun. inversion Hrun. reflexivity.
    + rewrite Hf in Hf'. discriminate.
Qed.

Lemma deleteUser_all_or_nothing_witness :
  deleteUser "nobody@example.org"
    (snd (createUser lenient_model ascii_toLowerCase 1000 (Some bob_data) empty_site))
  = (Callback (inl (ErrString "User not found!")),
     snd (createUser lenient_model ascii_toLowerCase 1000 (Some bob_data) empty_site)).
Proof.
  apply (deleteUser_all_or_nothing "nobody@example.org"
           (snd (createUser lenient_model ascii_toLowerCase 1000 (Some bob_data) empty_site)));
    [reflexivity|].
  intros j b Hj. destruct j as [|[|j]]; cbn in Hj; try discriminate.
  inversion Hj. discriminate.
Defined.

(** X17.  A deleted user is gone for the finders.  After a successful
    [deleteUser] of the only row with that email, and with the database
    answering: [getUserByEmail] of that email finds nothing; there was a
    row with that email, its key now holds no row and [getUserById] of
    that key finds nothing; and a second [deleteUser] of that email answers
    "User not found!" and changes nothing. *)
Theorem deleteUser_then_find (email : string) (s s' : Site) :
  deleteUser email s = (Callback (inr tt), s') ->
  site_failing s' = [] ->
  (forall j k b c, site_users s !! j = Some (Some b) -> site_users s !! k = Some (Some c) ->
     a_email b = JsString email -> a_email c = JsString email -> j = k) ->
  getUserByEmail email s' = (Callback (inr None), s') /\
  deleteUser email s' = (Callback (inl (ErrString "User not found!")), s') /\
  (exists i a, site_users s !! i = Some (Some a) /\ a_email a = JsString email) /\
  (forall i a, site_users s !! i = Some (Some a) -> a_email a = JsString email ->
     site_users s' !! i = Some None /\
     getUserById i s' = (Callback (inr None), s')).
Proof.
  intros Hrun Hh Huniq.
  destruct (deleteUser_cases email s) as (o & s0 & Hrun' & Hcase). cbv zeta in Hcase.
  rewrite Hrun in Hrun'. inversion Hrun'. subst o s0. clear Hrun'.
  destruct Hcase as [(Hno & _) | (_ & i & a & Hf & HU & _)]; [contradiction|].
  apply list_find_Some in Hf as (Hi & (a' & Ea & Ha) & _).
  apply (inj Some) in Ea. subst a'.
  assert (Hf' : list_find (account_where (fun a => a_email a = JsString email)) (site_users s')
                = None).
  { apply list_find_None, Forall_lookup. rewrite HU. intros j row Hj (b & -> & Hb).
    destruct (decide (i = j)) as [->|Hne].
    - rewrite list_lookup_alter_eq, Hi in Hj. discriminate.
    - rewrite list_lookup_alter_ne in Hj by exact Hne.
      apply Hne. exact (Huniq i j a b Hi Hj Ha Hb). }
  assert (Hget : getUserByEmail email s' = (Callback (inr None), s')).
  { unfold getUserByEmail. rewrite (user_find_healthy _ s' Hh), Hf'. reflexivity. }
  split; [exact Hget|]. split; [|split].
  - unfold deleteUser. rewrite Hget. reflexivity.
  - exists i, a. split; [exact Hi | exact Ha].
  - intros k c Hk Hc.
    assert (k = i) as -> by exact (Huniq k i c a Hk Hi Hc Ha).
    assert (Hhole : site_users s' !! i = Some None).
    { rewrite HU, list_lookup_alter_eq, Hi. reflexivity. }
    split; [exact Hhole|].
    unfold getUserById. rewrite (site_request_healthy s' Hh), Hhole. reflexivity.
Qed.

Lemma deleteUser_then_find_witness :
  let s1 := snd (createUser lenient_model ascii_toLowerCase 1000 (Some bob_data) empty_site) in
  let s2 := snd (deleteUser "bob@example.org" s1) in
  getUserByEmail "bob@example.org" s2 = (Callback (inr None), s2) /\
  deleteUser "bob@example.org" s2 = (Callback (inl (ErrString "User not found!")), s2) /\
  site_users s2 = [None; None] /\
  getUserById 1 s2 = (Callback (inr None), s2).
Proof.
  intros s1 s2.
  destruct (deleteUser_then_find "bob@example.org" s1 s2 eq_refl eq_refl)
    as (Hget & Hdel & _ & Hkey).
  - intros j k b c Hj Hk _ _.
    destruct j as [|[|j]]; cbn in Hj; try discriminate.
    destruct k as [|[|k]]; cbn in Hk; try discriminate. reflexivity.
  - split; [exact Hget|]. split; [exact Hdel|]. split; [reflexivity|].
    apply (Hkey 1%nat (user_insert lenient_model
                         (user_build (JsString "bob@example.org") "Bob" None "bob" 1000 None)));
      reflexivity.
Defined.
